(** * The real-time presentation relay (server.js)

    A shallow embedding of the socket.io relay server: the four
    process-wide maps ([presentationWindows], [controlPanels],
    [messageQueue], [heartbeats]), the per-socket event handlers and the
    two periodic sweeps, followed by the properties of the relay that
    have been checked against them. *)

From stdpp Require Import gmap strings list fin_maps.
From Stdlib Require Import ZArith Lia QArith Qminmax Lqa.

Local Open Scope Z_scope.
Local Open Scope string_scope.
Local Open Scope list_scope.

(** ** Values *)

(** socket.io identifies a connection by the string [socket.id]. *)
Abbreviation SocketId := string (only parsing).

(** The JavaScript values that travel through the relay as event
    arguments. *)
#[warnings="-register-all"]
Inductive JsValue : Type :=
| JsUndefined
| JsNull
| JsBool (b : bool)
| JsNumber (n : Z)
| JsString (s : string)
| JsObject (fields : list (string * JsValue)).

(** The object stored per registered socket:
    [{ connectedAt: Date.now(), lastHeartbeat: Date.now() }]. *)
Record Meta : Type := mkMeta {
  connectedAt : Z;
  lastHeartbeat : Z
}.

(** A [Meta] object seen as a plain JavaScript value, which is what it is
    once it is handed to [emit]. *)
Definition metaValue (m : Meta) : JsValue :=
  JsObject [("connectedAt", JsNumber (connectedAt m));
            ("lastHeartbeat", JsNumber (lastHeartbeat m))].

(** [{ id: ... }] *)
Definition idObject (id : SocketId) : JsValue :=
  JsObject [("id", JsString id)].

(** [{ success: true }] and [{ error: message }] *)
Definition successResponse : JsValue := JsObject [("success", JsBool true)].
Definition errorResponse (message : string) : JsValue :=
  JsObject [("error", JsString message)].

(** An element of a [messageQueue] array: [{ event, data }]. *)
Record QueuedMessage : Type := mkQueued {
  event : string;
  data : JsValue
}.

(** ** JavaScript [Map], with its insertion order

    [forEach] and [entries()] visit a Map in insertion order; [set] on a
    key that is present keeps its position, [delete] followed by [set]
    moves it to the end. *)
Module JsMap.
Abbreviation t V := (list (SocketId * V)).

Section JsMap.
Context {V : Type}.
Local Abbreviation t := (JsMap.t V).

Definition empty : t := [].

Fixpoint get (k : SocketId) (m : t) : option V :=
  match m with
  | [] => None
  | (k', v) :: m' => if decide (k = k') then Some v else get k m'
  end.

Definition has (k : SocketId) (m : t) : bool :=
  match get k m with Some _ => true | None => false end.

Fixpoint set (k : SocketId) (v : V) (m : t) : t :=
  match m with
  | [] => [(k, v)]
  | (k', v') :: m' =>
      if decide (k = k') then (k, v) :: m' else (k', v') :: set k v m'
  end.

Definition delete (k : SocketId) (m : t) : t :=
  filter (λ kv, kv.1 ≠ k) m.

Definition keys (m : t) : list SocketId := m.*1.

(** A Map holds a key once. *)
Definition wf (m : t) : Prop := NoDup (keys m).
End JsMap.
End JsMap.

(** ** Server state and effects *)

(** [sockets] is [io.sockets.sockets]: the sockets of the namespace, each
    with its [connected] flag.  Only [get] is used on it, and on
    [messageQueue] only [get], [has], [set] and [delete], so their order
    is not observable; the three other maps are iterated. *)
Record Server : Type := mkServer {
  sockets : gmap SocketId bool;
  presentationWindows : JsMap.t Meta;
  controlPanels : JsMap.t Meta;
  messageQueue : gmap SocketId (list QueuedMessage);
  heartbeats : JsMap.t Z
}.

Definition initial : Server :=
  mkServer ∅ JsMap.empty JsMap.empty ∅ JsMap.empty.

(** What a handler does to the outside world, in the order it does it. *)
Inductive Effect : Type :=
| Emit (to : SocketId) (ev : string) (arg : JsValue)
    (** [socket.emit(ev, arg)] on the socket whose id is [to] *)
| EmitRoom (room : SocketId) (ev : string) (arg : JsValue)
    (** [io.to(room).emit(ev, arg)] *)
| Ack (response : JsValue)
    (** [callback(response)] *)
| Log (line : list string).
    (** [console.log] / [console.error] *)

Definition HEARTBEAT_INTERVAL : Z := 30000.
Definition HEARTBEAT_TIMEOUT : Z := 60000.
Definition staleTimeout : Z := 5 * 60 * 1000.

(** ** Handlers as state transformers that record their effects *)

Definition M (A : Type) : Type := Server → A * Server * list Effect.

#[global] Instance M_ret : MRet M := λ A a st, (a, st, []).
#[global] Instance M_bind : MBind M := λ A B k m st,
  let '(a, st1, out1) := m st in
  let '(b, st2, out2) := k a st1 in
  (b, st2, out1 ++ out2).

Definition gets {A} (f : Server → A) : M A := λ st, (f st, st, []).
Definition modify (f : Server → Server) : M () := λ st, ((), f st, []).
Definition effect (e : Effect) : M () := λ st, ((), st, [e]).
Definition when (b : bool) (m : M ()) : M () := if b then m else mret ().

Fixpoint forEach {A} (l : list A) (body : A → M ()) : M () :=
  match l with
  | [] => mret ()
  | x :: l' => body x ;; forEach l' body
  end.

Definition stateOf {A} (r : A * Server * list Effect) : Server := r.1.2.
Definition effectsOf {A} (r : A * Server * list Effect) : list Effect := r.2.

(** Field updates. *)
Definition setSockets (f : gmap SocketId bool → gmap SocketId bool) : M () :=
  modify (λ st, mkServer (f (sockets st)) (presentationWindows st)
                         (controlPanels st) (messageQueue st) (heartbeats st)).
Definition setPresentationWindows (f : JsMap.t Meta → JsMap.t Meta) : M () :=
  modify (λ st, mkServer (sockets st) (f (presentationWindows st))
                         (controlPanels st) (messageQueue st) (heartbeats st)).
Definition setControlPanels (f : JsMap.t Meta → JsMap.t Meta) : M () :=
  modify (λ st, mkServer (sockets st) (presentationWindows st)
                         (f (controlPanels st)) (messageQueue st) (heartbeats st)).
Definition setMessageQueue
    (f : gmap SocketId (list QueuedMessage) → gmap SocketId (list QueuedMessage)) : M () :=
  modify (λ st, mkServer (sockets st) (presentationWindows st)
                         (controlPanels st) (f (messageQueue st)) (heartbeats st)).
Definition setHeartbeats (f : JsMap.t Z → JsMap.t Z) : M () :=
  modify (λ st, mkServer (sockets st) (presentationWindows st)
                         (controlPanels st) (messageQueue st) (f (heartbeats st))).

(** [const socket = io.sockets.sockets.get(id); socket && socket.connected] *)
Definition socketConnected (id : SocketId) (st : Server) : bool :=
  match sockets st !! id with
  | Some connected => connected
  | None => false
  end.

(** ** The handlers of [io.on('connection', (socket) => ...)]

    [now] is the reading of [Date.now()] during the handler; [callback]
    tells whether the client passed an acknowledgement function
    ([typeof callback === 'function']).  No statement in a [try] block
    throws on this state, so the [catch] branches are not reached and the
    [{ error }] acknowledgement is never produced. *)

(** Body of the connection handler up to the registration of the
    listeners. *)
Definition onConnection (socketId : SocketId) (now : Z) : M () :=
  effect (Log ["Client connected:"; socketId]) ;;
  setHeartbeats (JsMap.set socketId now) ;;
  queuedMessages ← gets (λ st, messageQueue st !! socketId) ;
  match queuedMessages with
  | Some queuedMessages =>
      forEach queuedMessages (λ msg, effect (Emit socketId (event msg) (data msg))) ;;
      setMessageQueue (delete socketId)
  | None => mret ()
  end.

Definition onPing (socketId : SocketId) (now : Z) : M () :=
  setHeartbeats (JsMap.set socketId now) ;;
  effect (Emit socketId "pong" JsUndefined).

(** The callback of [controlPanels.forEach((data, controlId) => ...)] in
    the 'registerPresentation' listener; [socketId] is the [socket.id] of
    the listener's socket. *)
Definition announceTo (socketId : SocketId) (entry : SocketId * Meta) : M () :=
  let '(controlId, data) := entry in
  effect (EmitRoom controlId "presentationConnected" (idObject socketId)).

Definition onRegisterPresentation
    (socketId : SocketId) (now : Z) (data : JsValue) (callback : bool) : M () :=
  effect (Log ["Presentation window registered:"; socketId]) ;;
  setPresentationWindows (JsMap.set socketId (mkMeta now now)) ;;
  when callback (effect (Ack successResponse)) ;;
  panels ← gets controlPanels ;
  forEach panels (announceTo socketId).

Definition onRegisterControl
    (socketId : SocketId) (now : Z) (data : JsValue) (callback : bool) : M () :=
  effect (Log ["Control panel registered:"; socketId]) ;;
  setControlPanels (JsMap.set socketId (mkMeta now now)) ;;
  when callback (effect (Ack successResponse)).

(** [messageQueue.get(windowId).push(msg)], after the queue has been
    created when it was missing. *)
Definition enqueue (windowId : SocketId) (msg : QueuedMessage)
    (q : gmap SocketId (list QueuedMessage)) : gmap SocketId (list QueuedMessage) :=
  match q !! windowId with
  | Some msgs => <[windowId := msgs ++ [msg]]> q
  | None => <[windowId := [] ++ [msg]]> q
  end.

(** The callback of [presentationWindows.forEach((data, windowId) => ...)]
    in the 'presentationUpdate' listener.  Its parameter [data] is the
    Map's value for [windowId]; inside the callback it hides the
    listener's own [data], the payload sent by the client, which the
    callback therefore never reads. *)
Definition relayTo (entry : SocketId * Meta) : M () :=
  let '(windowId, data) := entry in
  healthy ← gets (socketConnected windowId) ;
  if healthy : bool then
    effect (Emit windowId "presentationUpdate" (metaValue data))
  else
    setMessageQueue (enqueue windowId (mkQueued "presentationUpdate" (metaValue data))).

Definition onPresentationUpdate
    (socketId : SocketId) (data : JsValue) (callback : bool) : M () :=
  effect (Log ["Update received from:"; socketId]) ;;
  windows ← gets presentationWindows ;
  forEach windows relayTo ;;
  when callback (effect (Ack successResponse)).

(** The callback of [controlPanels.forEach((data, controlId) => ...)] in
    the 'disconnect' listener.  Its constant [socket] is the control
    panel's socket, [io.sockets.sockets.get(controlId)]; inside the
    callback it hides the listener's [socket], so the [socket.id] that is
    sent is [controlId]. *)
Definition announceDeparture (entry : SocketId * Meta) : M () :=
  let '(controlId, data) := entry in
  healthy ← gets (socketConnected controlId) ;
  when healthy
    (effect (Emit controlId "presentationDisconnected" (idObject controlId))).

Definition onDisconnect (socketId : SocketId) (reason : string) : M () :=
  effect (Log ["Client disconnected:"; socketId; "Reason:"; reason]) ;;
  registered ← gets (λ st, JsMap.has socketId (presentationWindows st)) ;
  when registered (
    setPresentationWindows (JsMap.delete socketId) ;;
    panels ← gets controlPanels ;
    forEach panels announceDeparture) ;;
  setControlPanels (JsMap.delete socketId) ;;
  setMessageQueue (delete socketId) ;;
  setHeartbeats (JsMap.delete socketId).

Definition onError (socketId : SocketId) : M () :=
  effect (Log ["Socket error:"]) ;;
  effect (Emit socketId "error" (JsObject [("message", JsString "An error occurred")])).

(** ** What socket.io does around the handlers

    The library is not part of the repository; these three definitions
    record the behaviour of socket.io 4 that the server relies on.  A
    socket is entered in [io.sockets.sockets] with [connected = true]
    before the connection handler runs.  When a socket closes, whether
    the client went away or the server called [socket.disconnect(true)],
    it is first taken out of [io.sockets.sockets] and marked not
    connected, and then its 'disconnect' listener runs, all in one turn
    of the event loop.  [disconnect] on a socket that is not connected
    does nothing, and a packet from a socket that is not connected is
    dropped.  A new socket never gets the id of a socket that is open;
    it may get an id that was in use earlier. *)
Definition socketOpen (socketId : SocketId) (now : Z) : M () :=
  known ← gets (λ st, bool_decide (is_Some (sockets st !! socketId))) ;
  if known : bool then mret ()
  else setSockets (<[socketId := true]>) ;; onConnection socketId now.

Definition socketClose (socketId : SocketId) (reason : string) : M () :=
  connected ← gets (socketConnected socketId) ;
  when connected (
    setSockets (delete socketId) ;;
    onDisconnect socketId reason).

Definition fromSocket (socketId : SocketId) (handler : M ()) : M () :=
  connected ← gets (socketConnected socketId) ;
  when connected handler.

(** ** The two [setInterval] sweeps *)

(** Heartbeat check (every [HEARTBEAT_INTERVAL]), over the snapshot
    [[...heartbeats.entries()]]. *)
Definition checkHeartbeat (now : Z) (entry : SocketId * Z) : M () :=
  let '(socketId, lastBeat) := entry in
  when (bool_decide (now - lastBeat > HEARTBEAT_TIMEOUT)) (
    socket ← gets (λ st, sockets st !! socketId) ;
    match socket with
    | Some _ =>
        effect (Log ["Client timed out:"; socketId]) ;;
        socketClose socketId "server namespace disconnect"
    | None => mret ()
    end ;;
    setHeartbeats (JsMap.delete socketId)).

Definition heartbeatCheck (now : Z) : M () :=
  entries ← gets heartbeats ;
  forEach entries (checkHeartbeat now).

(** Clean up stale connections (every minute), over the snapshots
    [[...presentationWindows.entries()]] and [[...controlPanels.entries()]]. *)
Definition dropStaleWindow (now : Z) (entry : SocketId * Meta) : M () :=
  let '(id, data) := entry in
  when (bool_decide (now - lastHeartbeat data > staleTimeout)) (
    setPresentationWindows (JsMap.delete id) ;;
    effect (Log ["Removed stale presentation window:"; id])).

Definition dropStalePanel (now : Z) (entry : SocketId * Meta) : M () :=
  let '(id, data) := entry in
  when (bool_decide (now - lastHeartbeat data > staleTimeout)) (
    setControlPanels (JsMap.delete id) ;;
    effect (Log ["Removed stale control panel:"; id])).

Definition staleCheck (now : Z) : M () :=
  windows ← gets presentationWindows ;
  forEach windows (dropStaleWindow now) ;;
  panels ← gets controlPanels ;
  forEach panels (dropStalePanel now).

(** ** Runs of the server *)

(** What can happen to the server: a client connects, a connected client
    sends one of the events the server listens to, a socket closes, or one
    of the two timers fires. *)
Inductive Event : Type :=
| Connect (socketId : SocketId)
| Ping (socketId : SocketId)
| RegisterPresentation (socketId : SocketId) (data : JsValue) (callback : bool)
| RegisterControl (socketId : SocketId) (data : JsValue) (callback : bool)
| PresentationUpdate (socketId : SocketId) (data : JsValue) (callback : bool)
| Disconnect (socketId : SocketId) (reason : string)
| SocketError (socketId : SocketId)
| HeartbeatTick
| StaleTick.

(** One turn of the event loop, at clock reading [now]. *)
Definition step (now : Z) (e : Event) : M () :=
  match e with
  | Connect socketId => socketOpen socketId now
  | Ping socketId => fromSocket socketId (onPing socketId now)
  | RegisterPresentation socketId data callback =>
      fromSocket socketId (onRegisterPresentation socketId now data callback)
  | RegisterControl socketId data callback =>
      fromSocket socketId (onRegisterControl socketId now data callback)
  | PresentationUpdate socketId data callback =>
      fromSocket socketId (onPresentationUpdate socketId data callback)
  | Disconnect socketId reason => socketClose socketId reason
  | SocketError socketId => fromSocket socketId (onError socketId)
  | HeartbeatTick => heartbeatCheck now
  | StaleTick => staleCheck now
  end.

Definition run (trace : list (Z * Event)) : M () :=
  forEach trace (λ '(now, e), step now e).

(** ** Observations *)

(** The events a given socket is sent by [socket.emit], in order. *)
Definition received (socketId : SocketId) (out : list Effect) : list (string * JsValue) :=
  omap (λ e, match e with
             | Emit to ev arg => if decide (to = socketId) then Some (ev, arg) else None
             | _ => None
             end) out.

(** The responses passed to the acknowledgement callback. *)
Definition acks (out : list Effect) : list JsValue :=
  omap (λ e, match e with Ack response => Some response | _ => None end) out.

Definition isLog (e : Effect) : bool :=
  match e with Log _ => true | _ => false end.

(** Everything but the console output. *)
Definition wire (out : list Effect) : list Effect :=
  filter (λ e, isLog e = false) out.

(** The update a control panel sends:
    [{ song, segment }], either of which may be [null]. *)
Definition update (song segment : JsValue) : JsValue :=
  JsObject [("song", song); ("segment", segment)].

(** ** Scenarios used below *)

(** A control panel "ctl" and a display "A", both connected and
    registered. *)
Definition controlAndDisplay : list (Z * Event) :=
  [(0, Connect "ctl"); (0, RegisterControl "ctl" JsNull true);
   (1000, Connect "A"); (1000, RegisterPresentation "A" JsNull true)].

Definition seg1 : JsValue := update (JsString "S1") (JsString "Seg1").
Definition seg2 : JsValue := update (JsString "S1") (JsString "Seg2").

(** The same registry as after [controlAndDisplay], at a moment when the
    socket of "A" is not usable and its 'disconnect' listener has not
    run. *)
Definition displayUnreachable : Server :=
  mkServer {["ctl" := true]}
           [("A", mkMeta 1000 1000)] [("ctl", mkMeta 0 0)]
           ∅ [("ctl", 0); ("A", 1000)].

(** "A" registers at time 0 and then pings every 30 s, with the heartbeat
    check running after each ping, for [n] rounds. *)
Definition pingEvery30s (n : nat) : list (Z * Event) :=
  [(0, Connect "A"); (0, RegisterPresentation "A" JsNull true)] ++
  flat_map (λ k, [(30000 * Z.of_nat k, Ping "A");
                  (30000 * Z.of_nat k, HeartbeatTick)]) (seq 1 n).

(** Two displays, "A" unreachable and "B" connected, and one control
    panel. *)
Definition oneDisplayUnreachable : Server :=
  mkServer {["ctl" := true; "B" := true]}
           [("A", mkMeta 1000 1000); ("B", mkMeta 1500 1500)] [("ctl", mkMeta 0 0)]
           ∅ [("ctl", 0); ("A", 1000); ("B", 1500)].

(** ** Predicates used in the statements *)

(** An identifier is classified under at most one role. *)
Definition OneRolePerId (st : Server) : Prop :=
  ∀ id, ¬ (JsMap.has id (presentationWindows st) = true
           ∧ JsMap.has id (controlPanels st) = true).

(** A registration attempt by [id] was refused: the acknowledgement
    carries an [error] field and [id] has no role. *)
Definition registrationRefused (id : SocketId) (r : () * Server * list Effect) : Prop :=
  (∃ message, acks (effectsOf r) = [errorResponse message])
  ∧ JsMap.has id (presentationWindows (stateOf r)) = false
  ∧ JsMap.has id (controlPanels (stateOf r)) = false.

(** A queue after the messages [msgs] have been pushed on it one by one,
    the queue being created by the first push when it was missing. *)
Definition pushed (q : option (list QueuedMessage)) (msgs : list QueuedMessage)
    : option (list QueuedMessage) :=
  match msgs with
  | [] => q
  | _ => Some (default [] q ++ msgs)
  end.

(** What holds of the registry between two turns of the event loop: every
    registered control panel and every socket with a heartbeat entry has a
    connected socket. *)
Definition Live (st : Server) : Prop :=
  Forall (λ id, socketConnected id st = true) (JsMap.keys (controlPanels st))
  ∧ Forall (λ id, socketConnected id st = true) (JsMap.keys (heartbeats st)).

(** [id] has no socket, no role, no mailbox and no heartbeat entry. *)
Definition Gone (id : SocketId) (st : Server) : Prop :=
  sockets st !! id = None
  ∧ JsMap.has id (presentationWindows st) = false
  ∧ JsMap.has id (controlPanels st) = false
  ∧ messageQueue st !! id = None
  ∧ JsMap.has id (heartbeats st) = false.

(** The [presentationDisconnected] event as the 'disconnect' listener
    sends it to the control panel [controlId]. *)
Definition departureNotice (controlId : SocketId) : Effect :=
  Emit controlId "presentationDisconnected" (idObject controlId).

(** The state once the socket [id] has closed and its 'disconnect'
    listener has run. *)
Definition closed (id : SocketId) (st : Server) : Server :=
  mkServer (delete id (sockets st))
           (JsMap.delete id (presentationWindows st))
           (JsMap.delete id (controlPanels st))
           (delete id (messageQueue st))
           (JsMap.delete id (heartbeats st)).

(** The state once [heartbeats.delete(id)] alone has run. *)
Definition dropBeat (id : SocketId) (st : Server) : Server :=
  mkServer (sockets st) (presentationWindows st) (controlPanels st)
           (messageQueue st) (JsMap.delete id (heartbeats st)).

(** A control panel and a display; the control panel has pinged at 50 s,
    the display has not pinged since it connected at 1 s. *)
Definition silentDisplay : list (Z * Event) :=
  controlAndDisplay ++ [(50000, Ping "ctl")].

(** ** More predicates on the server state *)

(** [now - lastHeartbeat > staleTimeout] fails for this registry entry. *)
Definition freshEntry (now : Z) (entry : SocketId * Meta) : Prop :=
  ¬ now - lastHeartbeat entry.2 > staleTimeout.

(** [now - lastBeat > HEARTBEAT_TIMEOUT] fails for this heartbeat entry. *)
Definition freshBeat (now : Z) (entry : SocketId * Z) : Prop :=
  ¬ now - entry.2 > HEARTBEAT_TIMEOUT.

(** How the four maps and the socket table stand to each other between
    two turns of the event loop. *)
Definition Consistent (st : Server) : Prop :=
  (∀ id, socketConnected id st = true ↔ id ∈ JsMap.keys (heartbeats st))
  ∧ (∀ id, is_Some (sockets st !! id) → socketConnected id st = true)
  ∧ (∀ id, id ∈ JsMap.keys (presentationWindows st) → socketConnected id st = true)
  ∧ (∀ id, id ∈ JsMap.keys (controlPanels st) → socketConnected id st = true)
  ∧ messageQueue st = ∅
  ∧ JsMap.wf (presentationWindows st)
  ∧ JsMap.wf (controlPanels st)
  ∧ JsMap.wf (heartbeats st).

(** Two displays registered long ago, "old" at 0 and "new" at 200 s, and
    a control panel registered at 0; all three sockets are open. *)
Definition oneStaleDisplay : Server :=
  mkServer {["ctl" := true; "old" := true; "new" := true]}
           [("old", mkMeta 0 0); ("new", mkMeta 200000 200000)]
           [("ctl", mkMeta 0 0)]
           ∅ [("ctl", 390000); ("old", 390000); ("new", 390000)].

(** ** The browser side: types (src/types) *)

Module SongSegment.
Inductive kind : Type := verse | chorus | bridge | pre_chorus.

Record t : Type := mk {
  id : string;
  songId : string;
  type : kind;
  order : Z;
  content : string;
  created_at : string
}.
End SongSegment.

Module Song.
Record t : Type := mk {
  id : string;
  title : string;
  author : string;
  churchId : string;
  created_by : string;
  created_at : string;
  updated_at : string;
  segments : list SongSegment.t
}.
End Song.

(** ** The presentation store (store/presentationStore.ts) *)

Module Store.

(** A key of the object passed to [socketService.sendUpdate]: left out,
    or given with [null] or a value. *)
Inductive Field (A : Type) : Type :=
| Missing
| Given (value : option A).
Arguments Missing {A}.
Arguments Given {A} value.

(** The argument of [socketService.sendUpdate]. *)
Record Update : Type := mkUpdate {
  song : Field Song.t;
  segment : Field SongSegment.t
}.

(** The state of the store; a [Window] is kept as an opaque handle. *)
Record PresentationState : Type := mkState {
  currentSong : option Song.t;
  currentSegment : option SongSegment.t;
  queue : list Song.t;
  isPresenting : bool;
  presentationWindow : option nat
}.

Definition initialState : PresentationState :=
  mkState None None [] false None.

(** Each action returns the new state and the updates it has handed to
    [socketService.sendUpdate], in order. *)
Definition setCurrentSong (song : option Song.t) (state : PresentationState)
    : PresentationState * list Update :=
  (mkState song (currentSegment state) (queue state)
           (isPresenting state) (presentationWindow state),
   [mkUpdate (Given song) Missing]).

Definition setCurrentSegment (segment : option SongSegment.t) (state : PresentationState)
    : PresentationState * list Update :=
  (mkState (currentSong state) segment (queue state)
           (isPresenting state) (presentationWindow state),
   [mkUpdate Missing (Given segment)]).

Definition addToQueue (song : Song.t) (state : PresentationState)
    : PresentationState * list Update :=
  if existsb (λ s, bool_decide (Song.id s = Song.id song)) (queue state)
  then (state, [])
  else (mkState (currentSong state) (currentSegment state) (queue state ++ [song])
                (isPresenting state) (presentationWindow state), []).

(** [state.currentSong?.id === songId] *)
Definition isCurrent (songId : string) (state : PresentationState) : bool :=
  match currentSong state with
  | Some current => bool_decide (Song.id current = songId)
  | None => false
  end.

Definition removeFromQueue (songId : string) (state : PresentationState)
    : PresentationState * list Update :=
  let queue' := filter (λ s, Song.id s ≠ songId) (queue state) in
  if isCurrent songId state
  then (mkState None None queue' (isPresenting state) (presentationWindow state),
        [mkUpdate (Given None) (Given None)])
  else (mkState (currentSong state) (currentSegment state) queue'
                (isPresenting state) (presentationWindow state), []).

Definition setIsPresenting (presenting : bool) (state : PresentationState)
    : PresentationState * list Update :=
  (mkState (currentSong state) (currentSegment state) (queue state)
           presenting (presentationWindow state), []).

Definition setPresentationWindow (window : option nat) (state : PresentationState)
    : PresentationState * list Update :=
  (mkState (currentSong state) (currentSegment state) (queue state)
           (isPresenting state) window, []).

(** The ids of the queued songs, in order. *)
Definition queueIds (state : PresentationState) : list string :=
  Song.id <$> queue state.

End Store.

(** ** The control panel (components/ControlPanel) *)

Module Panel.

(** [handleSelectSong]: [setCurrentSong(song)], then
    [setCurrentSegment(song.segments[0])] when the song has segments. *)
Definition handleSelectSong (song : Song.t) (state : Store.PresentationState)
    : Store.PresentationState * list Store.Update :=
  let '(state1, sent1) := Store.setCurrentSong (Some song) state in
  match Song.segments song with
  | first :: _ =>
      let '(state2, sent2) := Store.setCurrentSegment (Some first) state1 in
      (state2, sent1 ++ sent2)
  | [] => (state1, sent1)
  end.

Definition handleSelectSegment (segment : SongSegment.t) (state : Store.PresentationState)
    : Store.PresentationState * list Store.Update :=
  Store.setCurrentSegment (Some segment) state.

End Panel.

(** ** The presentation view (components/PresentationView) *)

Module View.

(** [localSong] and [localSegment], the two pieces of React state that
    decide what is shown.  They are set from a message of type [any], so
    they hold whatever value the message carried. *)
Record Local : Type := mkLocal {
  localSong : JsValue;
  localSegment : JsValue
}.

Definition initialLocal : Local := mkLocal JsNull JsNull.

(** JavaScript truthiness. *)
Definition truthy (v : JsValue) : bool :=
  match v with
  | JsUndefined | JsNull => false
  | JsBool b => b
  | JsNumber n => negb (n =? 0)%Z
  | JsString s => negb (bool_decide (s = ""))
  | JsObject _ => true
  end.

(** [key in object] and [object[key]] on the fields of an object. *)
Fixpoint hasKey (key : string) (fields : list (string * JsValue)) : bool :=
  match fields with
  | [] => false
  | (k, _) :: rest => if decide (key = k) then true else hasKey key rest
  end.

Fixpoint getKey (key : string) (fields : list (string * JsValue)) : JsValue :=
  match fields with
  | [] => JsUndefined
  | (k, v) :: rest => if decide (key = k) then v else getKey key rest
  end.

(** [value.key], which is [undefined] on a primitive that has no such
    property, as is the case for the keys used here. *)
Definition prop (key : string) (value : JsValue) : JsValue :=
  match value with
  | JsObject fields => getKey key fields
  | _ => JsUndefined
  end.

(** [handleUpdate].  On a truthy value that is not an object, ['song' in
    data] throws a [TypeError], which the [try] block catches: nothing is
    set. *)
Definition handleUpdate (data : JsValue) (st : Local) : Local :=
  if negb (truthy data) then st
  else match data with
       | JsObject fields =>
           let st1 := if hasKey "song" fields
                      then mkLocal (getKey "song" fields) (localSegment st)
                      else st in
           if hasKey "segment" fields
           then mkLocal (localSong st1) (getKey "segment" fields)
           else st1
       | _ => st
       end.

(** [handleMessage], the listener for [window.postMessage]: [origin] is
    [window.location.origin], [eventOrigin] and [eventData] are
    [event.origin] and [event.data].  [event.data?.type] is [undefined]
    when [event.data] is [null] or [undefined]. *)
Definition handleMessage (origin eventOrigin : string) (eventData : JsValue) (st : Local)
    : Local :=
  if bool_decide (eventOrigin ≠ origin) then st
  else match prop "type" eventData with
       | JsString type =>
           if bool_decide (type = "presentationUpdate")
           then handleUpdate (prop "data" eventData) st
           else st
       | _ => st
       end.

(** The socket of the view passes the argument of every
    [presentationUpdate] event it receives to [handleUpdate]
    ([socketService.onUpdate(handleUpdate)]); the other events do not
    reach the view's state.  [events] are the events the socket receives,
    in order. *)
Definition onSocketEvents (events : list (string * JsValue)) (st : Local) : Local :=
  foldl (λ st e, if bool_decide (e.1 = "presentationUpdate")
                 then handleUpdate e.2 st else st) st events.

End View.

(** ** The control panel's window to the display *)

Module Window.

(** The message [sendToPresentationWindow] posts:
    [{ type: 'presentationUpdate', data }]. *)
Definition presentationMessage (data : JsValue) : JsValue :=
  JsObject [("type", JsString "presentationUpdate"); ("data", data)].

(** [sendToPresentationWindow]; [usable] is
    [presentationWindow && !presentationWindow.closed].  The result is
    what is posted to the window. *)
Definition sendToPresentationWindow (usable : bool) (data : JsValue) : list JsValue :=
  if usable then [presentationMessage data] else [].



End Window.

(** ** Predicates on what the server sends *)

(** If [e] is a [presentationUpdate] sent to a socket, its argument is a
    registry entry. *)
Definition carriesRegistryEntry (e : Effect) : Prop :=
  match e with
  | Emit _ ev arg => ev = "presentationUpdate" → ∃ m, arg = metaValue m
  | _ => True
  end.

(** ** Scenarios on the browser side *)

Definition songA : Song.t :=
  Song.mk "a" "Amazing Grace" "Newton" "c1" "u1" "" ""
    [SongSegment.mk "a1" "a" SongSegment.verse 1 "Amazing grace" "";
     SongSegment.mk "a2" "a" SongSegment.chorus 2 "How sweet the sound" ""].

Definition songB : Song.t :=
  Song.mk "b" "Untitled" "" "c1" "u1" "" "" [].

Definition queueOfA : Store.PresentationState :=
  Store.mkState None None [songA] false None.

(** ** Lemmas on [JsMap] *)

Section JsMapFacts.
Context {V : Type}.
Implicit Types (m : JsMap.t V) (k : SocketId) (v : V).

Lemma JsMap_get_set_eq k v m : JsMap.get k (JsMap.set k v m) = Some v.
Proof.
  induction m as [|[k' v'] m IH]; simpl.
  - by rewrite decide_True.
  - destruct (decide (k = k')) as [->|Hne]; simpl.
    + by rewrite decide_True.
    + by rewrite decide_False.
Qed.

Lemma JsMap_get_set_ne k k' v m :
  k ≠ k' → JsMap.get k' (JsMap.set k v m) = JsMap.get k' m.
Proof.
  intros Hne. induction m as [|[k0 v0] m IH]; simpl.
  - by rewrite decide_False.
  - destruct (decide (k = k0)) as [->|Hne0]; simpl.
    + by rewrite !decide_False.
    + by rewrite IH.
Qed.

Lemma JsMap_has_elem_of k m : JsMap.has k m = true ↔ k ∈ JsMap.keys m.
Proof.
  unfold JsMap.has, JsMap.keys. induction m as [|[k' v'] m IH]; simpl.
  - split; [done | by intros ?%elem_of_nil].
  - destruct (decide (k = k')) as [->|Hne].
    + split; [intros _; left | done].
    + rewrite IH. split; [by right | by intros [?|?]%elem_of_cons].
Qed.

Lemma JsMap_get_elem_of k v m : JsMap.get k m = Some v → k ∈ JsMap.keys m.
Proof.
  intros H. apply JsMap_has_elem_of. unfold JsMap.has. by rewrite H.
Qed.

Lemma JsMap_get_lookup k v m : JsMap.get k m = Some v → (k, v) ∈ m.
Proof.
  induction m as [|[k' v'] m IH]; simpl; [done|].
  destruct (decide (k = k')) as [->|Hne].
  - intros [= ->]. left.
  - intros H. right. by apply IH.
Qed.

Lemma JsMap_keys_set k k' v m :
  k' ∈ JsMap.keys (JsMap.set k v m) ↔ k' = k ∨ k' ∈ JsMap.keys m.
Proof.
  unfold JsMap.keys. induction m as [|[k0 v0] m IH]; simpl.
  - rewrite list_elem_of_singleton, elem_of_nil. tauto.
  - destruct (decide (k = k0)) as [->|Hne]; simpl.
    + rewrite !elem_of_cons. tauto.
    + rewrite !elem_of_cons, IH. tauto.
Qed.

Lemma JsMap_keys_delete k k' m :
  k' ∈ JsMap.keys (JsMap.delete k m) ↔ k' ≠ k ∧ k' ∈ JsMap.keys m.
Proof.
  unfold JsMap.keys, JsMap.delete. rewrite !list_elem_of_fmap. split.
  - intros [[k0 v0] [-> [Hne ?]%list_elem_of_filter]]. split; [done|].
    by exists (k0, v0).
  - intros [Hne [[k0 v0] [-> Hin]]]. exists (k0, v0). split; [done|].
    by apply list_elem_of_filter.
Qed.

Lemma JsMap_has_delete_eq k m : JsMap.has k (JsMap.delete k m) = false.
Proof.
  apply not_true_is_false. rewrite JsMap_has_elem_of, JsMap_keys_delete.
  by intros [? _].
Qed.

Lemma JsMap_get_delete_ne k k' m :
  k ≠ k' → JsMap.get k' (JsMap.delete k m) = JsMap.get k' m.
Proof.
  intros Hne. unfold JsMap.delete.
  induction m as [|[k0 v0] m IH]; [done|].
  rewrite filter_cons. destruct (decide ((k0, v0).1 ≠ k)) as [Hk|Hk]; simpl in *.
  - by rewrite IH.
  - apply dec_stable in Hk. subst k0. by rewrite decide_False.
Qed.

Lemma JsMap_has_false_delete k k' m :
  JsMap.has k m = false → JsMap.has k (JsMap.delete k' m) = false.
Proof.
  intros H. apply not_true_is_false. rewrite JsMap_has_elem_of, JsMap_keys_delete.
  intros [_ Hin]. apply JsMap_has_elem_of in Hin. congruence.
Qed.

Lemma JsMap_delete_absent k m : JsMap.has k m = false → JsMap.delete k m = m.
Proof.
  intros H. unfold JsMap.delete. induction m as [|[k' v'] m IH]; [done|].
  unfold JsMap.has in H. simpl in H. destruct (decide (k = k')) as [->|Hne]; [done|].
  rewrite filter_cons, decide_True by (simpl; congruence).
  f_equal. by apply IH.
Qed.

Lemma JsMap_delete_idem k m :
  JsMap.delete k (JsMap.delete k m) = JsMap.delete k m.
Proof. apply JsMap_delete_absent, JsMap_has_delete_eq. Qed.

Lemma JsMap_wf_get_filter k v m :
  JsMap.wf m → JsMap.get k m = Some v → filter (λ kv, kv.1 = k) m = [(k, v)].
Proof.
  unfold JsMap.wf, JsMap.keys.
  induction m as [|[k' v'] m IH]; [done|].
  rewrite fmap_cons. intros [Hnotin Hnd]%NoDup_cons. rewrite filter_cons.
  simpl in *. destruct (decide (k = k')) as [->|Hne].
  - intros [= ->]. rewrite decide_True by done. f_equal.
    destruct (filter (λ kv, kv.1 = k') m) as [|[k0 v0] l] eqn:E; [done|].
    exfalso. assert (Hin : (k0, v0) ∈ filter (λ kv : SocketId * V, kv.1 = k') m)
      by (rewrite E; left).
    apply list_elem_of_filter in Hin as [Hk Hin]. simpl in Hk. subst k0.
    apply Hnotin, list_elem_of_fmap. by exists (k', v0).
  - intros H. rewrite decide_False by done. by apply IH.
Qed.

Lemma JsMap_get_none_filter k m :
  JsMap.get k m = None → filter (λ kv, kv.1 = k) m = [].
Proof.
  induction m as [|[k' v'] m IH]; [done|].
  rewrite filter_cons. simpl. destruct (decide (k = k')) as [->|Hne]; [done|].
  intros H. rewrite decide_False by done. by apply IH.
Qed.
End JsMapFacts.

(** ** Lemmas on the handler monad *)

Section MonadFacts.
Context {A B : Type}.

Lemma bind_state (m : M A) (k : A → M B) st :
  stateOf ((m ≫= k) st) = stateOf (k (m st).1.1 (stateOf (m st))).
Proof.
  unfold mbind, M_bind, stateOf. destruct (m st) as [[a st1] out1]. simpl.
  by destruct (k a st1) as [[b st2] out2].
Qed.

Lemma bind_effects (m : M A) (k : A → M B) st :
  effectsOf ((m ≫= k) st) =
  effectsOf (m st) ++ effectsOf (k (m st).1.1 (stateOf (m st))).
Proof.
  unfold mbind, M_bind, stateOf, effectsOf. destruct (m st) as [[a st1] out1].
  simpl. by destruct (k a st1) as [[b st2] out2].
Qed.

End MonadFacts.

Lemma forEach_cons_state {A} (x : A) l (body : A → M ()) st :
  stateOf (forEach (x :: l) body st) = stateOf (forEach l body (stateOf (body x st))).
Proof. cbn [forEach]. by rewrite bind_state. Qed.

Lemma forEach_cons_effects {A} (x : A) l (body : A → M ()) st :
  effectsOf (forEach (x :: l) body st) =
  effectsOf (body x st) ++ effectsOf (forEach l body (stateOf (body x st))).
Proof. cbn [forEach]. by rewrite bind_effects. Qed.

Lemma forEach_app_state {A} (l1 l2 : list A) (body : A → M ()) st :
  stateOf (forEach (l1 ++ l2) body st) =
  stateOf (forEach l2 body (stateOf (forEach l1 body st))).
Proof.
  revert st. induction l1 as [|x l1 IH]; intros st; [done|].
  rewrite <- app_comm_cons. by rewrite !forEach_cons_state, IH.
Qed.

Lemma forEach_app_effects {A} (l1 l2 : list A) (body : A → M ()) st :
  effectsOf (forEach (l1 ++ l2) body st) =
  effectsOf (forEach l1 body st) ++
  effectsOf (forEach l2 body (stateOf (forEach l1 body st))).
Proof.
  revert st. induction l1 as [|x l1 IH]; intros st; [done|].
  rewrite <- app_comm_cons.
  by rewrite !forEach_cons_effects, !forEach_cons_state, IH, app_assoc.
Qed.

(** The effects of a handler begin with its console line; set it apart
    so that the observations distribute over the rest. *)
Ltac log_first :=
  match goal with
  | |- context [Log ?l :: ?a ++ ?b] =>
      change (Log l :: a ++ b) with ([Log l] ++ a ++ b)
  end.

(** One iteration of the heartbeat check leaves the state as it is, drops
    a heartbeat entry, or closes a socket; [cases] is the case lemma. *)
Ltac by_heartbeat_cases cases :=
  match goal with
  | |- context [checkHeartbeat ?now (?k, ?t) ?st] =>
      destruct (cases now k t st) as [[_ ->]|[(_ & _ & ->)|(_ & _ & ->)]]
  end.

Lemma received_app id out1 out2 :
  received id (out1 ++ out2) = received id out1 ++ received id out2.
Proof. apply omap_app. Qed.

Lemma acks_app out1 out2 : acks (out1 ++ out2) = acks out1 ++ acks out2.
Proof. apply omap_app. Qed.

Lemma wire_app out1 out2 : wire (out1 ++ out2) = wire out1 ++ wire out2.
Proof. apply filter_app. Qed.

(** ** The payload of a relayed update *)

(** The handler never looks at the payload it was sent. *)
Lemma onPresentationUpdate_ignores_payload socketId payload1 payload2 callback :
  onPresentationUpdate socketId payload1 callback =
  onPresentationUpdate socketId payload2 callback.
Proof. reflexivity. Qed.

(** C1.  The relay is meant to forward the payload of a
    [presentationUpdate] to every display unchanged.  Run on a control
    panel and one display: the display is sent the [presentationUpdate]
    event, but its argument is the display's own registry entry
    [{connectedAt, lastHeartbeat}], not the update [{song, segment}] the
    control panel sent; the entry queued for an unreachable display holds
    the same registry entry. *)
Theorem presentationUpdate_sends_registry_entry :
  let st := stateOf (run controlAndDisplay initial) in
  received "A" (effectsOf (step 2000 (PresentationUpdate "ctl" seg1 true) st))
    = [("presentationUpdate", metaValue (mkMeta 1000 1000))]
  ∧ messageQueue (stateOf (onPresentationUpdate "ctl" seg1 true displayUnreachable)) !! "A"
    = Some [mkQueued "presentationUpdate" (metaValue (mkMeta 1000 1000))]
  ∧ metaValue (mkMeta 1000 1000) ≠ seg1.
Proof.
  intros st. split; [|split].
  - by vm_compute.
  - by vm_compute.
  - discriminate.
Qed.

(** C7.  A display that stays connected is meant to receive the updates
    that were issued, in order.  Two different updates are issued: the
    display is sent two [presentationUpdate] events, one per broadcast and
    in order, but both carry its registry entry, so what it receives is
    not the sequence of updates. *)
Theorem connected_display_receives_registry_entries :
  let st := stateOf (run controlAndDisplay initial) in
  let out := effectsOf (run [(2000, PresentationUpdate "ctl" seg1 true);
                             (3000, PresentationUpdate "ctl" seg2 true)] st) in
  received "A" out = [("presentationUpdate", metaValue (mkMeta 1000 1000));
                      ("presentationUpdate", metaValue (mkMeta 1000 1000))]
  ∧ received "A" out ≠ [("presentationUpdate", seg1); ("presentationUpdate", seg2)].
Proof.
  intros st out. split.
  - by vm_compute.
  - vm_compute. discriminate.
Qed.

(** C5.  When a display closes, the control panels are meant to be told
    the id of the display that left.  Display "A" closes: the control
    panel "ctl" is sent [presentationDisconnected] with its own id. *)
Theorem presentationDisconnected_names_the_control_panel :
  let st := stateOf (run controlAndDisplay initial) in
  received "ctl" (effectsOf (step 3000 (Disconnect "A" "transport close") st))
    = [("presentationDisconnected", idObject "ctl")]
  ∧ idObject "ctl" ≠ idObject "A".
Proof.
  intros st. split.
  - by vm_compute.
  - discriminate.
Qed.

(** C3.  A display that was away while updates were broadcast is meant to
    receive them when it comes back.  Display "A" closes, two updates are
    broadcast, "A" connects and registers again: nothing was queued for
    it, and it receives no [presentationUpdate] at all, whether it comes
    back under its old id or under a new one.  From a state in
    which "A" is unreachable but still registered, the two updates are
    queued and are flushed when the connection opens (before any
    registration), each with the registry entry as its argument. *)
Theorem updates_while_away_are_lost :
  let away := stateOf (run (controlAndDisplay ++
                            [(3000, Disconnect "A" "transport close")]) initial) in
  let updates := [(4000, PresentationUpdate "ctl" seg1 true);
                  (5000, PresentationUpdate "ctl" seg2 true)] in
  let back := [(6000, Connect "A"); (6000, RegisterPresentation "A" JsNull true)] in
  let fresh := [(6000, Connect "A2"); (6000, RegisterPresentation "A2" JsNull true)] in
  messageQueue (stateOf (run updates away)) !! "A" = None
  ∧ received "A" (effectsOf (run (updates ++ back) away)) = []
  ∧ received "A" (effectsOf (run (updates ++ [(6000, Connect "A")]) displayUnreachable))
    = [("presentationUpdate", metaValue (mkMeta 1000 1000));
       ("presentationUpdate", metaValue (mkMeta 1000 1000))]
  ∧ received "A" (effectsOf (run [(6000, RegisterPresentation "A" JsNull true)]
       (stateOf (run (updates ++ [(6000, Connect "A")]) displayUnreachable)))) = []
  ∧ received "A2" (effectsOf (run (updates ++ fresh) away)) = [].
Proof.
  intros away updates back fresh. repeat split; by vm_compute.
Qed.

(** C4.  A ping is meant to refresh the timestamp every eviction is
    measured against.  "A" registers at time 0 and pings every 30 s for
    six minutes, the heartbeat check running each time: its socket stays
    open and its entry in [heartbeats] is fresh, but [lastHeartbeat] in
    its registry entry is still 0, and the stale sweep removes the
    entry. *)
Theorem pinging_display_is_reclaimed_as_stale :
  let st := stateOf (run (pingEvery30s 12) initial) in
  socketConnected "A" st = true
  ∧ JsMap.get "A" (heartbeats st) = Some 360000
  ∧ JsMap.get "A" (presentationWindows st) = Some (mkMeta 0 0)
  ∧ JsMap.has "A" (presentationWindows (stateOf (step 360000 StaleTick st))) = false.
Proof.
  intros st. repeat split; by vm_compute.
Qed.

(** ** The fan-out of [presentationUpdate] *)

Lemma relayTo_healthy w m st :
  socketConnected w st = true →
  relayTo (w, m) st = ((), st, [Emit w "presentationUpdate" (metaValue m)]).
Proof. intros H. unfold relayTo, mbind, M_bind, gets. cbn. by rewrite H. Qed.

Lemma relayTo_unhealthy w m st :
  socketConnected w st = false →
  relayTo (w, m) st =
  ((), mkServer (sockets st) (presentationWindows st) (controlPanels st)
         (enqueue w (mkQueued "presentationUpdate" (metaValue m)) (messageQueue st))
         (heartbeats st), []).
Proof. intros H. unfold relayTo, mbind, M_bind, gets. cbn. by rewrite H. Qed.

Lemma enqueue_lookup k w msg (q : gmap SocketId (list QueuedMessage)) :
  enqueue k msg q !! w =
  if decide (k = w) then Some (default [] (q !! k) ++ [msg]) else q !! w.
Proof.
  unfold enqueue. destruct (decide (k = w)) as [->|Hne].
  - destruct (q !! w) eqn:E; by rewrite lookup_insert_eq.
  - destruct (q !! k) eqn:E; by rewrite lookup_insert_ne.
Qed.

Lemma relayTo_sockets entry st : sockets (stateOf (relayTo entry st)) = sockets st.
Proof.
  destruct entry as [w m]. destruct (socketConnected w st) eqn:H.
  - by rewrite relayTo_healthy.
  - by rewrite relayTo_unhealthy.
Qed.

Lemma relay_frame windows st :
  let st' := stateOf (forEach windows relayTo st) in
  sockets st' = sockets st
  ∧ presentationWindows st' = presentationWindows st
  ∧ controlPanels st' = controlPanels st
  ∧ heartbeats st' = heartbeats st.
Proof.
  revert st. induction windows as [|[w m] windows IH]; intros st; [done|].
  cbn zeta. rewrite forEach_cons_state.
  destruct (IH (stateOf (relayTo (w, m) st))) as (-> & -> & -> & ->).
  destruct (socketConnected w st) eqn:H.
  - by rewrite relayTo_healthy.
  - by rewrite relayTo_unhealthy.
Qed.

Lemma socketConnected_ext id st st' :
  sockets st = sockets st' → socketConnected id st = socketConnected id st'.
Proof. unfold socketConnected. by intros ->. Qed.

Lemma relay_received windows st w :
  received w (effectsOf (forEach windows relayTo st)) =
  if socketConnected w st
  then (λ kv, ("presentationUpdate", metaValue kv.2)) <$> filter (λ kv, kv.1 = w) windows
  else [].
Proof.
  revert st. induction windows as [|[k m] windows IH]; intros st.
  - by destruct (socketConnected w st).
  - rewrite forEach_cons_effects, received_app, IH, filter_cons.
    rewrite (socketConnected_ext w _ st) by apply relayTo_sockets.
    destruct (socketConnected k st) eqn:Hk.
    + rewrite relayTo_healthy by done. cbn.
      destruct (decide (k = w)) as [->|Hne]; [by rewrite Hk|].
      by destruct (socketConnected w st).
    + rewrite relayTo_unhealthy by done. cbn.
      destruct (decide (k = w)) as [->|Hne]; [by rewrite Hk|done].
Qed.

Lemma relay_queue windows st w :
  messageQueue (stateOf (forEach windows relayTo st)) !! w =
  if socketConnected w st then messageQueue st !! w
  else pushed (messageQueue st !! w)
         ((λ kv, mkQueued "presentationUpdate" (metaValue kv.2))
            <$> filter (λ kv, kv.1 = w) windows).
Proof.
  revert st. induction windows as [|[k m] windows IH]; intros st.
  - by destruct (socketConnected w st).
  - rewrite forEach_cons_state, IH, filter_cons.
    rewrite (socketConnected_ext w _ st) by apply relayTo_sockets.
    destruct (socketConnected k st) eqn:Hk.
    + rewrite relayTo_healthy by done. cbn.
      destruct (decide (k = w)) as [->|Hne]; [by rewrite Hk|done].
    + rewrite relayTo_unhealthy by done. cbn. rewrite enqueue_lookup.
      destruct (decide (k = w)) as [->|Hne]; [|done]. rewrite Hk. cbn.
      destruct (filter _ windows) as [|kv l]; cbn; [done|].
      by rewrite <- app_assoc.
Qed.

Lemma relay_acks windows st : acks (effectsOf (forEach windows relayTo st)) = [].
Proof.
  revert st. induction windows as [|[k m] windows IH]; intros st; [done|].
  rewrite forEach_cons_effects, acks_app, IH.
  destruct (socketConnected k st) eqn:Hk.
  - by rewrite relayTo_healthy.
  - by rewrite relayTo_unhealthy.
Qed.

Lemma relay_wire windows st :
  wire (effectsOf (forEach windows relayTo st)) = effectsOf (forEach windows relayTo st).
Proof.
  revert st. induction windows as [|[k m] windows IH]; intros st; [done|].
  rewrite forEach_cons_effects, wire_app, IH.
  destruct (socketConnected k st) eqn:Hk.
  - by rewrite relayTo_healthy.
  - by rewrite relayTo_unhealthy.
Qed.

(** The effects of the fan-out are determined by the socket table and the
    display registry. *)
Lemma relay_effects_ext windows st st' :
  sockets st = sockets st' →
  effectsOf (forEach windows relayTo st) = effectsOf (forEach windows relayTo st').
Proof.
  revert st st'. induction windows as [|[k m] windows IH]; intros st st' Hs; [done|].
  rewrite !forEach_cons_effects.
  rewrite (IH (stateOf (relayTo (k, m) st)) (stateOf (relayTo (k, m) st')))
    by (by rewrite !relayTo_sockets).
  f_equal. pose proof (socketConnected_ext k st st' Hs) as Hk'.
  destruct (socketConnected k st) eqn:Hk.
  - by rewrite (relayTo_healthy k m st), (relayTo_healthy k m st').
  - by rewrite (relayTo_unhealthy k m st), (relayTo_unhealthy k m st').
Qed.

Lemma onPresentationUpdate_state socketId payload callback st :
  stateOf (onPresentationUpdate socketId payload callback st) =
  stateOf (forEach (presentationWindows st) relayTo st).
Proof.
  unfold onPresentationUpdate. rewrite !bind_state. cbn.
  by destruct callback.
Qed.

Lemma onPresentationUpdate_effects socketId payload callback st :
  effectsOf (onPresentationUpdate socketId payload callback st) =
  Log ["Update received from:"; socketId]
    :: effectsOf (forEach (presentationWindows st) relayTo st)
    ++ (if callback then [Ack successResponse] else []).
Proof.
  unfold onPresentationUpdate. rewrite !bind_effects. cbn.
  by destruct callback.
Qed.

(** What a display that stays registered and connected is sent over a
    sequence of broadcasts: one [presentationUpdate] per broadcast, each
    with the display's registry entry in place of the update. *)
Lemma broadcasts_received w m sender (payloads : list JsValue) callback st :
  JsMap.wf (presentationWindows st) →
  JsMap.get w (presentationWindows st) = Some m →
  socketConnected w st = true →
  received w (effectsOf
    (forEach payloads (λ payload, onPresentationUpdate sender payload callback) st))
  = (λ _, ("presentationUpdate", metaValue m)) <$> payloads.
Proof.
  intros Hwf Hget Hc. revert st Hwf Hget Hc.
  induction payloads as [|payload payloads IH]; intros st Hwf Hget Hc; [done|].
  rewrite forEach_cons_effects, received_app.
  rewrite onPresentationUpdate_state, onPresentationUpdate_effects.
  destruct (relay_frame (presentationWindows st) st) as (Hs & Hw & _ & _).
  rewrite IH.
  - log_first.
    rewrite !received_app, relay_received, Hc.
    rewrite (JsMap_wf_get_filter w m) by done.
    destruct callback; cbn; done.
  - by rewrite Hw.
  - by rewrite Hw.
  - unfold socketConnected in *. by rewrite Hs.
Qed.

(** C6.  One broadcast handles every registered display on its own: a
    display whose socket is connected is sent one [presentationUpdate]
    and its mailbox is left alone; a display whose socket is not connected
    is sent nothing and one [presentationUpdate] entry is appended to its
    mailbox (created if missing); an identifier that is not a registered
    display is not touched.  Whatever the mix, the sender's callback is
    called once, with [{success: true}], after the fan-out. *)
Theorem fanout_handles_each_display st socketId payload :
  JsMap.wf (presentationWindows st) →
  let r := onPresentationUpdate socketId payload true st in
  (∀ w m, JsMap.get w (presentationWindows st) = Some m →
     if socketConnected w st
     then (received w (effectsOf r)).*1 = ["presentationUpdate"]
          ∧ messageQueue (stateOf r) !! w = messageQueue st !! w
     else received w (effectsOf r) = []
          ∧ ∃ msg, event msg = "presentationUpdate"
              ∧ messageQueue (stateOf r) !! w
                = Some (default [] (messageQueue st !! w) ++ [msg]))
  ∧ (∀ w, JsMap.get w (presentationWindows st) = None →
       received w (effectsOf r) = []
       ∧ messageQueue (stateOf r) !! w = messageQueue st !! w)
  ∧ acks (effectsOf r) = [successResponse]
  ∧ last (effectsOf r) = Some (Ack successResponse).
Proof.
  intros Hwf r.
  assert (Hrecv : ∀ w, received w (effectsOf r)
                       = received w (effectsOf (forEach (presentationWindows st) relayTo st))).
  { intros w. unfold r. rewrite onPresentationUpdate_effects.
    log_first.
    rewrite !received_app. cbn. by rewrite app_nil_r. }
  assert (Hq : ∀ w, messageQueue (stateOf r) !! w
                    = messageQueue (stateOf (forEach (presentationWindows st) relayTo st)) !! w).
  { intros w. unfold r. by rewrite onPresentationUpdate_state. }
  split; [|split; [|split]].
  - intros w m Hget. rewrite Hrecv, Hq, relay_received, relay_queue.
    rewrite (JsMap_wf_get_filter w m) by done.
    destruct (socketConnected w st); [done|]. split; [done|].
    by exists (mkQueued "presentationUpdate" (metaValue m)).
  - intros w Hget. rewrite Hrecv, Hq, relay_received, relay_queue.
    rewrite (JsMap_get_none_filter w) by done.
    by destruct (socketConnected w st).
  - unfold r. rewrite onPresentationUpdate_effects.
    log_first.
    by rewrite !acks_app, relay_acks.
  - unfold r. rewrite onPresentationUpdate_effects.
    rewrite app_comm_cons. apply last_snoc.
Qed.

(** On two displays, "A" unreachable and "B" connected. *)
Lemma fanout_handles_each_display_witness :
  let st := oneDisplayUnreachable in
  let r := onPresentationUpdate "ctl" seg1 true st in
  JsMap.wf (presentationWindows st)
  ∧ (received "B" (effectsOf r)).*1 = ["presentationUpdate"]
  ∧ received "A" (effectsOf r) = []
  ∧ (∃ msg, event msg = "presentationUpdate"
        ∧ messageQueue (stateOf r) !! "A" = Some ([] ++ [msg]))
  ∧ acks (effectsOf r) = [successResponse].
Proof.
  assert (Hwf : JsMap.wf (presentationWindows oneDisplayUnreachable)).
  { unfold JsMap.wf, JsMap.keys. apply (bool_decide_unpack _). by vm_compute. }
  destruct (fanout_handles_each_display oneDisplayUnreachable "ctl" seg1 Hwf)
    as (Hin & _ & Hack & _).
  pose proof (Hin "B" (mkMeta 1500 1500) eq_refl) as HB.
  pose proof (Hin "A" (mkMeta 1000 1000) eq_refl) as HA.
  intros st r. split; [exact Hwf|].
  split; [exact (proj1 HB)|]. split; [exact (proj1 HA)|].
  split; [exact (proj2 HA)|exact Hack].
Defined.

(** C10.  The 'presentationUpdate' listener does not look at who sent the
    message: whichever two sockets send the same message in the same
    state (a registered control panel, a registered display, a socket
    with no role), the resulting state is the same and so is everything
    the server sends, the fan-out to the displays and the
    [{success: true}] acknowledgement; only the console line differs. *)
Theorem presentationUpdate_ignores_the_sender sender1 sender2 payload callback st :
  stateOf (onPresentationUpdate sender1 payload callback st)
    = stateOf (onPresentationUpdate sender2 payload callback st)
  ∧ wire (effectsOf (onPresentationUpdate sender1 payload callback st))
    = wire (effectsOf (onPresentationUpdate sender2 payload callback st))
  ∧ acks (effectsOf (onPresentationUpdate sender1 payload true st)) = [successResponse]
  ∧ (∀ w, received w (effectsOf (onPresentationUpdate sender1 payload callback st))
          = received w (effectsOf (onPresentationUpdate sender2 payload callback st))).
Proof.
  rewrite !onPresentationUpdate_state, !onPresentationUpdate_effects.
  split; [done|]. split; [done|]. split; [|done].
  log_first.
  by rewrite !acks_app, relay_acks.
Qed.

(** ** Registration *)

Lemma forEach_announceTo panels socketId st :
  forEach panels (announceTo socketId) st =
  ((), st, (λ kv, EmitRoom kv.1 "presentationConnected" (idObject socketId)) <$> panels).
Proof.
  induction panels as [|[c m] panels IH]; [done|].
  cbn [forEach]. unfold mbind, M_bind. cbn. by rewrite IH.
Qed.

Lemma onRegisterPresentation_state socketId now payload callback st :
  stateOf (onRegisterPresentation socketId now payload callback st) =
  mkServer (sockets st) (JsMap.set socketId (mkMeta now now) (presentationWindows st))
           (controlPanels st) (messageQueue st) (heartbeats st).
Proof.
  unfold onRegisterPresentation. rewrite !bind_state. cbn.
  rewrite forEach_announceTo. by destruct callback.
Qed.

Lemma onRegisterPresentation_effects socketId now payload callback st :
  effectsOf (onRegisterPresentation socketId now payload callback st) =
  Log ["Presentation window registered:"; socketId]
    :: (if callback then [Ack successResponse] else [])
    ++ ((λ kv, EmitRoom kv.1 "presentationConnected" (idObject socketId))
          <$> controlPanels st).
Proof.
  unfold onRegisterPresentation. rewrite !bind_effects. cbn.
  rewrite forEach_announceTo. by destruct callback.
Qed.

Lemma onRegisterControl_state socketId now payload callback st :
  stateOf (onRegisterControl socketId now payload callback st) =
  mkServer (sockets st) (presentationWindows st)
           (JsMap.set socketId (mkMeta now now) (controlPanels st))
           (messageQueue st) (heartbeats st).
Proof.
  unfold onRegisterControl. rewrite !bind_state. cbn. by destruct callback.
Qed.

Lemma onRegisterControl_effects socketId now payload callback st :
  effectsOf (onRegisterControl socketId now payload callback st) =
  Log ["Control panel registered:"; socketId]
    :: (if callback then [Ack successResponse] else []).
Proof.
  unfold onRegisterControl. rewrite !bind_effects. cbn. by destruct callback.
Qed.

Lemma acks_announcements socketId (panels : JsMap.t Meta) :
  acks ((λ kv, EmitRoom kv.1 "presentationConnected" (idObject socketId)) <$> panels) = [].
Proof. by induction panels. Qed.

(** C9, as stated, fails: display "A" and control panel "ctl" are already
    registered and register again, with a payload where none is expected;
    neither attempt is refused. *)
Lemma repeated_registration_is_accepted :
  let st := stateOf (run controlAndDisplay initial) in
  ¬ registrationRefused "A"
      (step 2000 (RegisterPresentation "A" (JsNumber 42) true) st)
  ∧ ¬ registrationRefused "ctl"
      (step 2000 (RegisterControl "ctl" (JsNumber 42) true) st).
Proof.
  intros st. split; intros [[message H] _]; vm_compute in H; discriminate.
Qed.

(** C9, amended.  The registration listeners neither validate the payload
    nor detect a repeated registration: whatever the payload and the
    state, the callback is called once, with [{success: true}], and the
    socket holds the role it asked for, with a fresh registry entry. *)
Theorem registration_always_succeeds socketId now payload st :
  let display := onRegisterPresentation socketId now payload true st in
  let control := onRegisterControl socketId now payload true st in
  acks (effectsOf display) = [successResponse]
  ∧ JsMap.get socketId (presentationWindows (stateOf display)) = Some (mkMeta now now)
  ∧ acks (effectsOf control) = [successResponse]
  ∧ JsMap.get socketId (controlPanels (stateOf control)) = Some (mkMeta now now).
Proof.
  intros display control. unfold display, control.
  rewrite onRegisterPresentation_state, onRegisterPresentation_effects.
  rewrite onRegisterControl_state, onRegisterControl_effects.
  cbn [presentationWindows controlPanels]. rewrite !JsMap_get_set_eq.
  repeat split.
  log_first.
  by rewrite !acks_app, acks_announcements.
Qed.

(** C2, as stated, fails: display "A" registers as a control panel as
    well.  It is then classified under both roles, and the next broadcast
    still sends it the update as a display. *)
Lemma second_role_is_added :
  let st := stateOf (run (controlAndDisplay ++
                          [(2000, RegisterControl "A" JsNull true)]) initial) in
  ¬ OneRolePerId st
  ∧ received "A" (effectsOf (step 3000 (PresentationUpdate "ctl" seg1 true) st)) ≠ [].
Proof.
  intros st. split.
  - intros H. apply (H "A"). by vm_compute.
  - vm_compute. discriminate.
Qed.

(** C2, amended.  A registration writes the entry of its socket in the
    map of the role asked for, replacing the entry if there was one, and
    touches neither the other entries of that map nor the map of the
    other role.  So a socket that registers under both roles is in both
    maps, and registering as a control panel changes nothing to what the
    next broadcast sends: the fan-out goes to every socket that has an
    entry in the display map. *)
Theorem registration_touches_one_role_map socketId now payload callback st :
  let asDisplay := stateOf (onRegisterPresentation socketId now payload callback st) in
  let asControl := stateOf (onRegisterControl socketId now payload callback st) in
  JsMap.get socketId (presentationWindows asDisplay) = Some (mkMeta now now)
  ∧ (∀ id, id ≠ socketId →
       JsMap.get id (presentationWindows asDisplay) = JsMap.get id (presentationWindows st))
  ∧ controlPanels asDisplay = controlPanels st
  ∧ JsMap.get socketId (controlPanels asControl) = Some (mkMeta now now)
  ∧ (∀ id, id ≠ socketId →
       JsMap.get id (controlPanels asControl) = JsMap.get id (controlPanels st))
  ∧ presentationWindows asControl = presentationWindows st
  ∧ (∀ sender update cb,
       effectsOf (onPresentationUpdate sender update cb asControl)
       = effectsOf (onPresentationUpdate sender update cb st)).
Proof.
  intros asDisplay asControl. unfold asDisplay, asControl.
  rewrite onRegisterPresentation_state, onRegisterControl_state. cbn.
  rewrite !JsMap_get_set_eq. repeat split; try done.
  - intros id Hne. by apply JsMap_get_set_ne.
  - intros id Hne. by apply JsMap_get_set_ne.
  - intros sender upd cb. rewrite !onPresentationUpdate_effects. cbn.
    f_equal. f_equal. by apply relay_effects_ext.
Qed.

(** ** Closing a socket *)

Lemma forEach_announceDeparture (panels : JsMap.t Meta) st :
  forEach panels announceDeparture st =
  ((), st, departureNotice
             <$> filter (λ c, socketConnected c st = true) (JsMap.keys panels)).
Proof.
  unfold JsMap.keys. induction panels as [|[c m] panels IH]; [done|].
  cbn [forEach]. unfold mbind, M_bind. rewrite fmap_cons, filter_cons.
  unfold announceDeparture at 1. unfold mbind, M_bind, gets. cbn.
  destruct (socketConnected c st) eqn:Hc; cbn.
  - rewrite IH. by rewrite decide_True.
  - rewrite IH. by rewrite decide_False.
Qed.

Lemma onDisconnect_state socketId reason st :
  stateOf (onDisconnect socketId reason st) =
  mkServer (sockets st)
           (JsMap.delete socketId (presentationWindows st))
           (JsMap.delete socketId (controlPanels st))
           (delete socketId (messageQueue st))
           (JsMap.delete socketId (heartbeats st)).
Proof.
  unfold onDisconnect. rewrite !bind_state. cbn.
  destruct (JsMap.has socketId (presentationWindows st)) eqn:Hreg; cbn.
  - rewrite !bind_state. cbn. rewrite forEach_announceDeparture. reflexivity.
  - by rewrite (JsMap_delete_absent socketId (presentationWindows st)).
Qed.

Lemma onDisconnect_effects socketId reason st :
  effectsOf (onDisconnect socketId reason st) =
  Log ["Client disconnected:"; socketId; "Reason:"; reason]
    :: (if JsMap.has socketId (presentationWindows st)
        then departureNotice
               <$> filter (λ c, socketConnected c st = true)
                          (JsMap.keys (controlPanels st))
        else []).
Proof.
  unfold onDisconnect. rewrite !bind_effects. cbn.
  destruct (JsMap.has socketId (presentationWindows st)) eqn:Hreg; cbn; [|done].
  rewrite !bind_effects. cbn. rewrite forEach_announceDeparture. cbn.
  by rewrite app_nil_r.
Qed.

Lemma filter_ext_in {A} (P Q : A → Prop)
    `{HdecP : ∀ x, Decision (P x)} `{HdecQ : ∀ x, Decision (Q x)} (l : list A) :
  (∀ x, x ∈ l → (P x ↔ Q x)) → filter P l = filter Q l.
Proof.
  induction l as [|x l IH]; intros Hext; [done|].
  rewrite !filter_cons. rewrite IH by (intros y Hy; apply Hext; by right).
  destruct (decide (P x)) as [HP|HP], (decide (Q x)) as [HQ|HQ]; try done.
  - exfalso. apply HQ. apply Hext; [left | exact HP].
  - exfalso. apply HP. apply Hext; [left | exact HQ].
Qed.

Lemma wire_notices (l : list SocketId) :
  wire (departureNotice <$> l) = departureNotice <$> l.
Proof.
  induction l as [|c l IH]; [done|].
  rewrite fmap_cons. unfold wire in *. rewrite filter_cons_True by done.
  by rewrite IH.
Qed.

Lemma socketClose_connected socketId reason st :
  socketConnected socketId st = true →
  stateOf (socketClose socketId reason st) = closed socketId st
  ∧ effectsOf (socketClose socketId reason st) =
    Log ["Client disconnected:"; socketId; "Reason:"; reason]
      :: (if JsMap.has socketId (presentationWindows st)
          then departureNotice
                 <$> filter (λ c, c ≠ socketId ∧ socketConnected c st = true)
                            (JsMap.keys (controlPanels st))
          else []).
Proof.
  intros Hc. unfold socketClose. rewrite bind_state, bind_effects. cbn.
  rewrite Hc. cbn. rewrite bind_state, bind_effects. cbn.
  rewrite onDisconnect_state, onDisconnect_effects. cbn. split; [done|].
  f_equal. destruct (JsMap.has _ _); [|done]. f_equal.
  apply filter_ext_in. intros c _. unfold socketConnected. cbn.
  destruct (decide (c = socketId)) as [->|Hne].
  - rewrite lookup_delete_eq. split; [done | by intros [? _]].
  - rewrite lookup_delete_ne by done. split; [done | by intros [_ ?]].
Qed.

Lemma socketClose_not_connected socketId reason st :
  socketConnected socketId st = false →
  socketClose socketId reason st = ((), st, []).
Proof.
  intros Hc. unfold socketClose, mbind, M_bind, gets. cbn. by rewrite Hc.
Qed.

(** ** The heartbeat check *)

Lemma checkHeartbeat_fresh now socketId lastBeat st :
  ¬ now - lastBeat > HEARTBEAT_TIMEOUT →
  checkHeartbeat now (socketId, lastBeat) st = ((), st, []).
Proof.
  intros Hfresh. unfold checkHeartbeat. by rewrite bool_decide_eq_false_2.
Qed.

Lemma checkHeartbeat_connected now socketId lastBeat st :
  now - lastBeat > HEARTBEAT_TIMEOUT →
  socketConnected socketId st = true →
  stateOf (checkHeartbeat now (socketId, lastBeat) st) = closed socketId st
  ∧ wire (effectsOf (checkHeartbeat now (socketId, lastBeat) st)) =
    (if JsMap.has socketId (presentationWindows st)
     then departureNotice
            <$> filter (λ c, c ≠ socketId ∧ socketConnected c st = true)
                       (JsMap.keys (controlPanels st))
     else []).
Proof.
  intros Hold Hc. unfold checkHeartbeat. rewrite bool_decide_eq_true_2 by done.
  cbn [when]. rewrite !bind_state, !bind_effects. cbn.
  assert (Hs : sockets st !! socketId = Some true).
  { unfold socketConnected in Hc. by destruct (sockets st !! socketId) as [[]|]. }
  rewrite Hs. rewrite !bind_state, !bind_effects. cbn.
  destruct (socketClose_connected socketId "server namespace disconnect" st Hc)
    as [-> ->].
  split.
  - unfold closed. cbn. f_equal. apply JsMap_delete_idem.
  - rewrite app_nil_r. cbn. destruct (JsMap.has _ _); [|done].
    apply wire_notices.
Qed.

Lemma checkHeartbeat_not_connected now socketId lastBeat st :
  now - lastBeat > HEARTBEAT_TIMEOUT →
  socketConnected socketId st = false →
  stateOf (checkHeartbeat now (socketId, lastBeat) st) = dropBeat socketId st
  ∧ wire (effectsOf (checkHeartbeat now (socketId, lastBeat) st)) = [].
Proof.
  intros Hold Hc. unfold checkHeartbeat. rewrite bool_decide_eq_true_2 by done.
  cbn [when]. rewrite !bind_state, !bind_effects. cbn.
  destruct (sockets st !! socketId) as [b|] eqn:Hs; [|done].
  rewrite !bind_state, !bind_effects. cbn.
  by rewrite socketClose_not_connected.
Qed.

Lemma Gone_closed id st : Gone id (closed id st).
Proof.
  unfold Gone, closed. cbn.
  rewrite !lookup_delete_eq, !JsMap_has_delete_eq. done.
Qed.

Lemma Gone_closed_other id k st : Gone id st → Gone id (closed k st).
Proof.
  unfold Gone, closed. cbn. intros (Hs & Hw & Hc & Hq & Hb).
  repeat split; try by apply JsMap_has_false_delete.
  - apply lookup_delete_None. by right.
  - apply lookup_delete_None. by right.
Qed.

Lemma Gone_dropBeat id k st : Gone id st → Gone id (dropBeat k st).
Proof.
  unfold Gone, dropBeat. cbn. intros (Hs & Hw & Hc & Hq & Hb).
  repeat split; try done. by apply JsMap_has_false_delete.
Qed.

Lemma Live_mono st st' :
  (∀ c, socketConnected c st = true → c ∈ JsMap.keys (controlPanels st') ∨
        c ∈ JsMap.keys (heartbeats st') → socketConnected c st' = true) →
  (∀ c, c ∈ JsMap.keys (controlPanels st') → c ∈ JsMap.keys (controlPanels st)) →
  (∀ c, c ∈ JsMap.keys (heartbeats st') → c ∈ JsMap.keys (heartbeats st)) →
  Live st → Live st'.
Proof.
  unfold Live. rewrite !Forall_forall. intros Hs Hc Hb [Lc Lb]. split.
  - intros c Hin. apply Hs; [apply Lc, Hc, Hin | by left].
  - intros c Hin. apply Hs; [apply Lb, Hb, Hin | by right].
Qed.

Lemma Live_closed k st : Live st → Live (closed k st).
Proof.
  apply Live_mono; unfold closed; cbn.
  - intros c Hc Hin. unfold socketConnected. cbn.
    rewrite lookup_delete_ne; [done|].
    destruct Hin as [Hin|Hin]; apply JsMap_keys_delete in Hin; by intros ->; destruct Hin.
  - intros c Hin. by apply JsMap_keys_delete in Hin as [_ ?].
  - intros c Hin. by apply JsMap_keys_delete in Hin as [_ ?].
Qed.

Lemma Live_dropBeat k st : Live st → Live (dropBeat k st).
Proof.
  apply Live_mono; unfold dropBeat; cbn; try done.
  intros c Hin. by apply JsMap_keys_delete in Hin as [_ ?].
Qed.

Create HintDb relay.
#[local] Hint Resolve Gone_closed Gone_closed_other Gone_dropBeat
  Live_closed Live_dropBeat : relay.

Lemma Live_connected id st :
  Live st → id ∈ JsMap.keys (heartbeats st) → socketConnected id st = true.
Proof. intros [_ Lb]. rewrite Forall_forall in Lb. apply Lb. Qed.

(** What one iteration of the heartbeat check does to the state. *)
Lemma checkHeartbeat_cases now socketId lastBeat st :
  let st' := stateOf (checkHeartbeat now (socketId, lastBeat) st) in
  (¬ now - lastBeat > HEARTBEAT_TIMEOUT ∧ st' = st)
  ∨ (now - lastBeat > HEARTBEAT_TIMEOUT ∧ socketConnected socketId st = false
     ∧ st' = dropBeat socketId st)
  ∨ (now - lastBeat > HEARTBEAT_TIMEOUT ∧ socketConnected socketId st = true
     ∧ st' = closed socketId st).
Proof.
  cbn zeta. destruct (decide (now - lastBeat > HEARTBEAT_TIMEOUT)) as [Hold|Hfresh].
  - right. destruct (socketConnected socketId st) eqn:Hc.
    + right. by destruct (checkHeartbeat_connected now socketId lastBeat st Hold Hc).
    + left. by destruct (checkHeartbeat_not_connected now socketId lastBeat st Hold Hc).
  - left. by rewrite checkHeartbeat_fresh.
Qed.

Lemma checkHeartbeat_Gone now entry id st :
  Gone id st → Gone id (stateOf (checkHeartbeat now entry st)).
Proof.
  destruct entry as [k t]. intros HG.
  by_heartbeat_cases checkHeartbeat_cases; auto with relay.
Qed.

Lemma checkHeartbeat_Live now entry st :
  Live st → Live (stateOf (checkHeartbeat now entry st)).
Proof.
  destruct entry as [k t]. intros HL.
  by_heartbeat_cases checkHeartbeat_cases; auto with relay.
Qed.

Lemma checkHeartbeat_panels now entry st c :
  c ∈ JsMap.keys (controlPanels (stateOf (checkHeartbeat now entry st))) →
  c ∈ JsMap.keys (controlPanels st).
Proof.
  destruct entry as [k t]. by_heartbeat_cases checkHeartbeat_cases; try done.
  unfold closed. cbn. by intros [_ ?]%JsMap_keys_delete.
Qed.

Lemma sweep_Gone now entries id st :
  Gone id st → Gone id (stateOf (forEach entries (checkHeartbeat now) st)).
Proof.
  revert st. induction entries as [|entry entries IH]; intros st HG; [done|].
  rewrite forEach_cons_state. by apply IH, checkHeartbeat_Gone.
Qed.

Lemma sweep_Live now entries st :
  Live st → Live (stateOf (forEach entries (checkHeartbeat now) st)).
Proof.
  revert st. induction entries as [|entry entries IH]; intros st HL; [done|].
  rewrite forEach_cons_state. by apply IH, checkHeartbeat_Live.
Qed.

Lemma sweep_panels now entries st c :
  c ∈ JsMap.keys (controlPanels (stateOf (forEach entries (checkHeartbeat now) st))) →
  c ∈ JsMap.keys (controlPanels st).
Proof.
  revert st. induction entries as [|entry entries IH]; intros st; [done|].
  rewrite forEach_cons_state. intros Hin%IH. by eapply checkHeartbeat_panels.
Qed.

(** Every entry of the snapshot that has timed out is evicted by the end
    of the sweep. *)
Lemma sweep_evicts now entries id lastBeat st :
  Live st →
  (id, lastBeat) ∈ entries →
  now - lastBeat > HEARTBEAT_TIMEOUT →
  id ∈ JsMap.keys (heartbeats st) ∨ Gone id st →
  Gone id (stateOf (forEach entries (checkHeartbeat now) st)).
Proof.
  intros HL Hin Hold. revert st HL.
  induction entries as [|[k t] entries IH]; intros st HL Hst.
  { by apply elem_of_nil in Hin. }
  rewrite forEach_cons_state.
  destruct Hst as [Hkey|HG]; [|by apply sweep_Gone, checkHeartbeat_Gone].
  pose proof (Live_connected id st HL Hkey) as Hc.
  apply elem_of_cons in Hin as [[= <- <-]|Hin].
  - destruct (checkHeartbeat_connected now id lastBeat st Hold Hc) as [-> _].
    apply sweep_Gone, Gone_closed.
  - pose proof (checkHeartbeat_Live now (k, t) st HL) as HL1.
    apply (IH Hin _ HL1).
    destruct (checkHeartbeat_cases now k t st)
      as [[_ ->]|[(_ & Hk & ->)|(_ & Hk & ->)]]; [by left|..].
    + left. unfold dropBeat. cbn. apply JsMap_keys_delete. split; [|done].
      intros ->. congruence.
    + destruct (decide (id = k)) as [->|Hne]; [right; apply Gone_closed|].
      left. unfold closed. cbn. by apply JsMap_keys_delete.
Qed.

Lemma checkHeartbeat_notices now entry st e :
  e ∈ wire (effectsOf (checkHeartbeat now entry st)) →
  ∃ c, e = departureNotice c ∧ c ∈ JsMap.keys (controlPanels st).
Proof.
  destruct entry as [k t].
  destruct (decide (now - t > HEARTBEAT_TIMEOUT)) as [Hold|Hfresh].
  - destruct (socketConnected k st) eqn:Hc.
    + destruct (checkHeartbeat_connected now k t st Hold Hc) as [_ ->].
      destruct (JsMap.has k (presentationWindows st)); [|by intros ?%elem_of_nil].
      intros (c & -> & Hin)%list_elem_of_fmap. exists c. split; [done|].
      by apply list_elem_of_filter in Hin as [_ ?].
    + destruct (checkHeartbeat_not_connected now k t st Hold Hc) as [_ ->].
      by intros ?%elem_of_nil.
  - rewrite checkHeartbeat_fresh by done. by intros ?%elem_of_nil.
Qed.

(** During a sweep the server sends nothing but departure notices to
    control panels. *)
Lemma sweep_notices_only now entries st e :
  e ∈ wire (effectsOf (forEach entries (checkHeartbeat now) st)) →
  ∃ c, e = departureNotice c ∧ c ∈ JsMap.keys (controlPanels st).
Proof.
  revert st. induction entries as [|entry entries IH]; intros st.
  { by intros ?%elem_of_nil. }
  rewrite forEach_cons_effects, wire_app.
  intros [Hin|Hin]%elem_of_app.
  - by apply (checkHeartbeat_notices now entry).
  - apply IH in Hin as (c & -> & Hin). exists c. split; [done|].
    by eapply checkHeartbeat_panels.
Qed.

(** When a display is evicted by a sweep, every control panel that is
    registered at the end of the sweep has been sent a departure
    notice. *)
Lemma sweep_notifies now entries id lastBeat st c :
  Live st →
  (id, lastBeat) ∈ entries →
  now - lastBeat > HEARTBEAT_TIMEOUT →
  id ∈ JsMap.keys (heartbeats st) →
  JsMap.has id (presentationWindows st) = true →
  c ∈ JsMap.keys (controlPanels (stateOf (forEach entries (checkHeartbeat now) st))) →
  departureNotice c ∈ wire (effectsOf (forEach entries (checkHeartbeat now) st)).
Proof.
  intros HL Hin Hold. revert st HL.
  induction entries as [|[k t] entries IH]; intros st HL Hkey Hdisp Hc.
  { by apply elem_of_nil in Hin. }
  rewrite forEach_cons_state in Hc.
  rewrite forEach_cons_effects, wire_app. apply elem_of_app.
  pose proof (Live_connected id st HL Hkey) as Hconn.
  assert (Hnow : (k = id ∧ now - t > HEARTBEAT_TIMEOUT) ∨
                 ((id, lastBeat) ∈ entries ∧ ¬ (k = id ∧ now - t > HEARTBEAT_TIMEOUT))).
  { destruct (decide (k = id ∧ now - t > HEARTBEAT_TIMEOUT)) as [?|Hn]; [by left|].
    right. split; [|done]. apply elem_of_cons in Hin as [[= <- <-]|?]; [|done].
    by destruct Hn. }
  destruct Hnow as [[-> Hold']|[Hin' Hn]].
  - left. destruct (checkHeartbeat_connected now id t st Hold' Hconn) as [Hst ->].
    rewrite Hdisp. apply list_elem_of_fmap_2, list_elem_of_filter.
    apply sweep_panels in Hc. rewrite Hst in Hc. unfold closed in Hc. cbn in Hc.
    apply JsMap_keys_delete in Hc as [Hne Hc]. split; [|done]. split; [done|].
    destruct HL as [Lc _]. rewrite Forall_forall in Lc. by apply Lc.
  - right. pose proof (checkHeartbeat_Live now (k, t) st HL) as HL1.
    apply (IH Hin' _ HL1); [..|done].
    + destruct (checkHeartbeat_cases now k t st)
        as [[_ ->]|[(Hold' & Hk & ->)|(Hold' & Hk & ->)]]; [done|..].
      * unfold dropBeat. cbn. apply JsMap_keys_delete. split; [|done].
        intros ->. congruence.
      * unfold closed. cbn. apply JsMap_keys_delete. split; [|done].
        intros ->. by apply Hn.
    + destruct (checkHeartbeat_cases now k t st)
        as [[_ ->]|[(Hold' & Hk & ->)|(Hold' & Hk & ->)]]; [done..|].
      unfold closed. cbn. apply JsMap_has_elem_of, JsMap_keys_delete.
      split; [|by apply JsMap_has_elem_of].
      intros ->. by apply Hn.
Qed.

(** ** [Live] holds in every state the server can reach *)

Lemma Live_initial : Live initial.
Proof. split; constructor. Qed.

Lemma Live_iff st :
  Live st ↔
  (∀ c, c ∈ JsMap.keys (controlPanels st) ∨ c ∈ JsMap.keys (heartbeats st) →
        socketConnected c st = true).
Proof.
  unfold Live. rewrite !Forall_forall. split.
  - intros [Lc Lb] c [?|?]; auto.
  - intros H. split; intros c ?; apply H; auto.
Qed.

Lemma forEach_flush socketId (msgs : list QueuedMessage) st :
  forEach msgs (λ msg, effect (Emit socketId (event msg) (data msg))) st =
  ((), st, (λ msg, Emit socketId (event msg) (data msg)) <$> msgs).
Proof.
  induction msgs as [|msg msgs IH]; [done|].
  cbn [forEach]. unfold mbind, M_bind. cbn. by rewrite IH.
Qed.

Lemma onConnection_state socketId now st :
  stateOf (onConnection socketId now st) =
  mkServer (sockets st) (presentationWindows st) (controlPanels st)
           (match messageQueue st !! socketId with
            | Some _ => delete socketId (messageQueue st)
            | None => messageQueue st
            end)
           (JsMap.set socketId now (heartbeats st)).
Proof.
  unfold onConnection. rewrite !bind_state. cbn.
  destruct (messageQueue st !! socketId) as [msgs|]; [|done].
  rewrite !bind_state. cbn. by rewrite forEach_flush.
Qed.

Lemma onConnection_effects socketId now st :
  effectsOf (onConnection socketId now st) =
  Log ["Client connected:"; socketId]
    :: match messageQueue st !! socketId with
       | Some msgs => (λ msg, Emit socketId (event msg) (data msg)) <$> msgs
       | None => []
       end.
Proof.
  unfold onConnection. rewrite !bind_effects. cbn.
  destruct (messageQueue st !! socketId) as [msgs|]; [|done].
  rewrite !bind_effects. cbn. rewrite forEach_flush. cbn. by rewrite app_nil_r.
Qed.

Lemma socketOpen_Live socketId now st :
  Live st → Live (stateOf (socketOpen socketId now st)).
Proof.
  intros HL. unfold socketOpen. rewrite bind_state. cbn.
  destruct (bool_decide _); [done|].
  rewrite bind_state. cbn. rewrite onConnection_state. cbn.
  apply Live_iff. intros c Hin. unfold socketConnected. cbn.
  destruct (decide (c = socketId)) as [->|Hne]; [by rewrite lookup_insert_eq|].
  rewrite lookup_insert_ne by done. apply (proj1 (Live_iff st) HL).
  destruct Hin as [?|Hin]; [by left|right].
  apply JsMap_keys_set in Hin as [?|?]; done.
Qed.

Lemma socketClose_Live socketId reason st :
  Live st → Live (stateOf (socketClose socketId reason st)).
Proof.
  intros HL. destruct (socketConnected socketId st) eqn:Hc.
  - destruct (socketClose_connected socketId reason st Hc) as [-> _].
    by apply Live_closed.
  - by rewrite socketClose_not_connected.
Qed.

Lemma staleWindows_frame now windows st :
  let st' := stateOf (forEach windows (dropStaleWindow now) st) in
  sockets st' = sockets st ∧ controlPanels st' = controlPanels st
  ∧ heartbeats st' = heartbeats st.
Proof.
  revert st. induction windows as [|[id m] windows IH]; intros st; [done|].
  cbn zeta. rewrite forEach_cons_state.
  destruct (IH (stateOf (dropStaleWindow now (id, m) st))) as (-> & -> & ->).
  unfold dropStaleWindow. by destruct (bool_decide _).
Qed.

Lemma stalePanels_frame now panels st :
  let st' := stateOf (forEach panels (dropStalePanel now) st) in
  sockets st' = sockets st ∧ heartbeats st' = heartbeats st
  ∧ ∀ c, c ∈ JsMap.keys (controlPanels st') → c ∈ JsMap.keys (controlPanels st).
Proof.
  revert st. induction panels as [|[id m] panels IH]; intros st; [done|].
  cbn zeta. rewrite forEach_cons_state.
  destruct (IH (stateOf (dropStalePanel now (id, m) st))) as (-> & -> & Hsub).
  assert (Hstep : ∀ c,
    c ∈ JsMap.keys (controlPanels (stateOf (dropStalePanel now (id, m) st))) →
    c ∈ JsMap.keys (controlPanels st)).
  { unfold dropStalePanel. destruct (bool_decide _); [|done].
    intros c Hin. cbn in Hin. by apply JsMap_keys_delete in Hin as [_ ?]. }
  split; [|split]; [| |by intros c Hin%Hsub%Hstep];
    unfold dropStalePanel; by destruct (bool_decide _).
Qed.

Lemma staleCheck_Live now st : Live st → Live (stateOf (staleCheck now st)).
Proof.
  unfold staleCheck. rewrite !bind_state. cbn.
  set (st1 := stateOf (forEach (presentationWindows st) (dropStaleWindow now) st)).
  destruct (staleWindows_frame now (presentationWindows st) st) as (Hs1 & Hc1 & Hb1).
  destruct (stalePanels_frame now (controlPanels st1) st1) as (Hs2 & Hb2 & Hc2).
  fold st1 in Hs1, Hc1, Hb1.
  apply Live_mono.
  - intros c Hc _. unfold socketConnected in *. by rewrite Hs2, Hs1.
  - intros c Hin%Hc2. by rewrite <- Hc1.
  - intros c Hin. by rewrite <- Hb1, <- Hb2.
Qed.

Lemma fromSocket_Live socketId handler st :
  (socketConnected socketId st = true → Live (stateOf (handler st))) →
  Live st → Live (stateOf (fromSocket socketId handler st)).
Proof.
  intros Hh HL. unfold fromSocket. rewrite bind_state. cbn.
  destruct (socketConnected socketId st); [by apply Hh | done].
Qed.

Lemma step_Live now e st : Live st → Live (stateOf (step now e st)).
Proof.
  intros HL. destruct e as [id|id|id payload cb|id payload cb|id payload cb|id reason|id| |];
    cbn [step].
  - by apply socketOpen_Live.
  - apply fromSocket_Live; [|done]. intros Hc. apply Live_iff. intros c Hin.
    unfold onPing in *. rewrite !bind_state in *. cbn in *.
    destruct (decide (c = id)) as [->|Hne]; [done|].
    apply (proj1 (Live_iff st) HL).
    destruct Hin as [?|Hin]; [by left|right].
    apply JsMap_keys_set in Hin as [?|?]; done.
  - apply fromSocket_Live; [|done]. intros _.
    rewrite onRegisterPresentation_state. by apply (Live_mono st).
  - apply fromSocket_Live; [|done]. intros Hc.
    rewrite onRegisterControl_state. apply Live_iff. intros c Hin. cbn in Hin.
    destruct (decide (c = id)) as [->|Hne]; [done|].
    apply (proj1 (Live_iff st) HL).
    destruct Hin as [Hin|?]; [left|by right].
    apply JsMap_keys_set in Hin as [?|?]; done.
  - apply fromSocket_Live; [|done]. intros _.
    rewrite onPresentationUpdate_state.
    destruct (relay_frame (presentationWindows st) st) as (Hs & _ & Hc & Hb).
    apply (Live_mono st); [|by rewrite Hc|by rewrite Hb|done].
    intros c Hconn _. unfold socketConnected in *. by rewrite Hs.
  - by apply socketClose_Live.
  - by apply fromSocket_Live.
  - unfold heartbeatCheck. rewrite bind_state. cbn. by apply sweep_Live.
  - by apply staleCheck_Live.
Qed.

Lemma run_Live trace st : Live st → Live (stateOf (run trace st)).
Proof.
  unfold run. revert st. induction trace as [|[now e] trace IH]; intros st HL; [done|].
  rewrite forEach_cons_state. by apply IH, step_Live.
Qed.

Lemma heartbeatCheck_state now st :
  stateOf (heartbeatCheck now st) =
  stateOf (forEach (heartbeats st) (checkHeartbeat now) st).
Proof. unfold heartbeatCheck. by rewrite bind_state. Qed.

Lemma heartbeatCheck_effects now st :
  effectsOf (heartbeatCheck now st) =
  effectsOf (forEach (heartbeats st) (checkHeartbeat now) st).
Proof. unfold heartbeatCheck. by rewrite bind_effects. Qed.

(** C8.  In a state the server can reach ([Live], see [run_Live]), take a
    socket whose entry in [heartbeats] is older than [HEARTBEAT_TIMEOUT].
    Its eviction, the iteration of the heartbeat check for that entry,
    closes the socket and removes its role entries, its mailbox and its
    heartbeat entry; what the server sends during the eviction is one
    [presentationDisconnected] to each registered control panel when the
    socket was a display, and nothing at all otherwise.  By the end of the
    sweep the socket is gone; if it was a display, every control panel
    still registered then has been sent [presentationDisconnected]; and
    nothing else than such notices to registered control panels is sent
    during the sweep. *)
Theorem heartbeat_timeout_evicts st now id lastBeat :
  Live st →
  JsMap.get id (heartbeats st) = Some lastBeat →
  now - lastBeat > HEARTBEAT_TIMEOUT →
  let evict := checkHeartbeat now (id, lastBeat) st in
  let sweep := heartbeatCheck now st in
  Gone id (stateOf evict)
  ∧ wire (effectsOf evict) =
      (if JsMap.has id (presentationWindows st)
       then departureNotice <$> filter (λ c, c ≠ id) (JsMap.keys (controlPanels st))
       else [])
  ∧ Live (stateOf evict)
  ∧ Gone id (stateOf sweep)
  ∧ (JsMap.has id (presentationWindows st) = true →
     ∀ c, c ∈ JsMap.keys (controlPanels (stateOf sweep)) →
          departureNotice c ∈ wire (effectsOf sweep))
  ∧ (∀ e, e ∈ wire (effectsOf sweep) →
          ∃ c, e = departureNotice c ∧ c ∈ JsMap.keys (controlPanels st)).
Proof.
  intros HL Hget Hold evict sweep.
  pose proof (JsMap_get_elem_of _ _ _ Hget) as Hkey.
  pose proof (JsMap_get_lookup _ _ _ Hget) as Hin.
  pose proof (Live_connected id st HL Hkey) as Hc.
  destruct (checkHeartbeat_connected now id lastBeat st Hold Hc) as [Hst Hout].
  unfold evict, sweep.
  rewrite heartbeatCheck_state, heartbeatCheck_effects, Hst, Hout.
  split; [apply Gone_closed|]. split.
  { destruct (JsMap.has id (presentationWindows st)); [|done]. f_equal.
    apply filter_ext_in. intros c Hcin. split; [by intros [? _]|].
    intros Hne. split; [done|].
    destruct HL as [Lc _]. rewrite Forall_forall in Lc. by apply Lc. }
  split; [by apply Live_closed|].
  split; [apply (sweep_evicts now _ id lastBeat); auto|].
  split.
  - intros Hdisp c Hcin. by apply (sweep_notifies now _ id lastBeat).
  - intros e. apply sweep_notices_only.
Qed.

(** On the control panel and the display of [silentDisplay], at 70 s. *)
Lemma heartbeat_timeout_evicts_witness :
  let st := stateOf (run silentDisplay initial) in
  Live st
  ∧ JsMap.get "A" (heartbeats st) = Some 1000
  ∧ 70000 - 1000 > HEARTBEAT_TIMEOUT
  ∧ Gone "A" (stateOf (heartbeatCheck 70000 st))
  ∧ wire (effectsOf (checkHeartbeat 70000 ("A", 1000) st)) = [departureNotice "ctl"].
Proof.
  intros st.
  assert (HL : Live st) by apply run_Live, Live_initial.
  assert (Hget : JsMap.get "A" (heartbeats st) = Some 1000) by (by vm_compute).
  assert (Hold : 70000 - 1000 > HEARTBEAT_TIMEOUT) by (by vm_compute).
  destruct (heartbeat_timeout_evicts st 70000 "A" 1000 HL Hget Hold)
    as (_ & Hout & _ & Hgone & _).
  split; [exact HL|]. split; [exact Hget|]. split; [exact Hold|].
  split; [exact Hgone|]. rewrite Hout. by vm_compute.
Defined.

(** ** What the mailbox and the heartbeat check do get right *)

(** Opening a connection sends the entries of its mailbox in order, once
    each, and deletes the mailbox. *)
Lemma connection_flushes_mailbox socketId now msgs st :
  messageQueue st !! socketId = Some msgs →
  received socketId (effectsOf (onConnection socketId now st))
    = (λ msg, (event msg, data msg)) <$> msgs
  ∧ messageQueue (stateOf (onConnection socketId now st)) !! socketId = None.
Proof.
  intros Hq. rewrite onConnection_state, onConnection_effects, Hq. cbn. split.
  - clear Hq. induction msgs as [|msg msgs IH]; [done|].
    cbn. rewrite decide_True by done. by rewrite <- IH.
  - apply lookup_delete_eq.
Qed.

(** While a display is registered and its socket is not connected, each
    broadcast pushes one entry on its mailbox. *)
Lemma broadcasts_queued w m sender (payloads : list JsValue) callback st :
  JsMap.wf (presentationWindows st) →
  JsMap.get w (presentationWindows st) = Some m →
  socketConnected w st = false →
  messageQueue (stateOf
    (forEach payloads (λ payload, onPresentationUpdate sender payload callback) st)) !! w
  = pushed (messageQueue st !! w)
           ((λ _, mkQueued "presentationUpdate" (metaValue m)) <$> payloads).
Proof.
  intros Hwf Hget Hc. revert st Hwf Hget Hc.
  induction payloads as [|payload payloads IH]; intros st Hwf Hget Hc; [done|].
  rewrite forEach_cons_state, onPresentationUpdate_state.
  destruct (relay_frame (presentationWindows st) st) as (Hs & Hw & _ & _).
  rewrite IH.
  - rewrite relay_queue, Hc, (JsMap_wf_get_filter w m) by done. cbn.
    destruct payloads as [|p payloads]; cbn; [done|].
    by rewrite <- app_assoc.
  - by rewrite Hw.
  - by rewrite Hw.
  - unfold socketConnected in *. by rewrite Hs.
Qed.

Lemma JsMap_wf_elem_of {V} (k : SocketId) (v v' : V) (m : JsMap.t V) :
  JsMap.wf m → JsMap.get k m = Some v → (k, v') ∈ m → v' = v.
Proof.
  intros Hwf Hget Hin.
  assert (Hf : (k, v') ∈ filter (λ kv : SocketId * V, kv.1 = k) m)
    by (by apply list_elem_of_filter).
  rewrite (JsMap_wf_get_filter k v m Hwf Hget) in Hf.
  by apply list_elem_of_singleton in Hf as [= ->].
Qed.

(** The part of the state that belongs to [id]. *)
Lemma closed_other id k st :
  id ≠ k →
  sockets (closed k st) !! id = sockets st !! id
  ∧ JsMap.get id (presentationWindows (closed k st)) = JsMap.get id (presentationWindows st)
  ∧ JsMap.get id (controlPanels (closed k st)) = JsMap.get id (controlPanels st)
  ∧ messageQueue (closed k st) !! id = messageQueue st !! id
  ∧ JsMap.get id (heartbeats (closed k st)) = JsMap.get id (heartbeats st).
Proof.
  intros Hne. unfold closed. cbn.
  rewrite !lookup_delete_ne by done.
  by rewrite !(JsMap_get_delete_ne k id) by done.
Qed.

(** A heartbeat check leaves alone a socket whose heartbeat is within the
    timeout: its socket, its role entries, its mailbox and its heartbeat
    entry are as before. *)
Lemma sweep_keeps_fresh now entries id st :
  (∀ t, (id, t) ∈ entries → ¬ now - t > HEARTBEAT_TIMEOUT) →
  let st' := stateOf (forEach entries (checkHeartbeat now) st) in
  sockets st' !! id = sockets st !! id
  ∧ JsMap.get id (presentationWindows st') = JsMap.get id (presentationWindows st)
  ∧ JsMap.get id (controlPanels st') = JsMap.get id (controlPanels st)
  ∧ messageQueue st' !! id = messageQueue st !! id
  ∧ JsMap.get id (heartbeats st') = JsMap.get id (heartbeats st).
Proof.
  revert st. induction entries as [|[k t] entries IH]; intros st Hfresh; [done|].
  cbn zeta. rewrite forEach_cons_state.
  destruct (IH (stateOf (checkHeartbeat now (k, t) st))) as (-> & -> & -> & -> & ->).
  { intros t' Hin. apply Hfresh. by right. }
  destruct (checkHeartbeat_cases now k t st)
    as [[_ ->]|[(Hold & _ & ->)|(Hold & _ & ->)]]; [done|..].
  - unfold dropBeat. cbn. repeat split; try done.
    apply JsMap_get_delete_ne. intros ->. apply (Hfresh t); [left | done].
  - apply closed_other. intros ->. apply (Hfresh t); [left | done].
Qed.

Lemma heartbeatCheck_keeps_fresh now id lastBeat st :
  JsMap.wf (heartbeats st) →
  JsMap.get id (heartbeats st) = Some lastBeat →
  (now - lastBeat ≤ HEARTBEAT_TIMEOUT)%Z →
  let st' := stateOf (heartbeatCheck now st) in
  sockets st' !! id = sockets st !! id
  ∧ JsMap.get id (presentationWindows st') = JsMap.get id (presentationWindows st)
  ∧ JsMap.get id (controlPanels st') = JsMap.get id (controlPanels st)
  ∧ JsMap.get id (heartbeats st') = Some lastBeat.
Proof.
  intros Hwf Hget Hfresh. cbn zeta. rewrite heartbeatCheck_state.
  destruct (sweep_keeps_fresh now (heartbeats st) id st) as (-> & -> & -> & _ & ->);
    [|done].
  intros t Hin. rewrite (JsMap_wf_elem_of id lastBeat t _ Hwf Hget Hin). lia.
Qed.

(** ** More on [JsMap]: distinct keys *)

Lemma JsMap_wf_set {V} (k : SocketId) (v : V) (m : JsMap.t V) :
  JsMap.wf m → JsMap.wf (JsMap.set k v m).
Proof.
  unfold JsMap.wf, JsMap.keys. induction m as [|[k' v'] m IH]; intros Hwf.
  - cbn. apply NoDup_singleton.
  - cbn [JsMap.set]. rewrite fmap_cons in Hwf. apply NoDup_cons in Hwf as [Hnotin Hnd].
    destruct (decide (k = k')) as [->|Hne]; rewrite fmap_cons; apply NoDup_cons.
    + done.
    + split; [|by apply IH]. cbn. intros Hin.
      apply (JsMap_keys_set k k' v m) in Hin as [?|?]; [congruence|done].
Qed.

Lemma JsMap_wf_delete {V} (k : SocketId) (m : JsMap.t V) :
  JsMap.wf m → JsMap.wf (JsMap.delete k m).
Proof.
  unfold JsMap.wf, JsMap.keys, JsMap.delete. induction m as [|[k' v'] m IH]; [done|].
  rewrite fmap_cons. intros [Hnotin Hnd]%NoDup_cons. rewrite filter_cons.
  destruct (decide ((k', v').1 ≠ k)); [|by apply IH].
  rewrite fmap_cons. apply NoDup_cons. split; [|by apply IH].
  intros Hin. apply Hnotin. apply (JsMap_keys_delete k k' m) in Hin. by destruct Hin.
Qed.

Lemma JsMap_wf_unique {V} (k : SocketId) (v v' : V) (m : JsMap.t V) :
  JsMap.wf m → (k, v) ∈ m → (k, v') ∈ m → v = v'.
Proof.
  intros Hwf Hin Hin'.
  assert (Hhas : JsMap.has k m = true).
  { apply JsMap_has_elem_of, list_elem_of_fmap. by exists (k, v). }
  unfold JsMap.has in Hhas. destruct (JsMap.get k m) as [v0|] eqn:Hget; [|done].
  rewrite (JsMap_wf_elem_of k v0 v m Hwf Hget Hin).
  by rewrite (JsMap_wf_elem_of k v0 v' m Hwf Hget Hin').
Qed.

Lemma filter_all {A} (P : A → Prop) `{HdecP : ∀ x, Decision (P x)} (l : list A) :
  Forall P l → filter P l = l.
Proof.
  induction 1 as [|x l HP _ IH]; [done|].
  by rewrite filter_cons_True, IH.
Qed.

(** Deleting from a Map the keys of the entries that satisfy [Q] leaves
    the entries that do not. *)
Lemma JsMap_delete_keys {V} (Q : SocketId * V → Prop) `{HdecQ : ∀ e, Decision (Q e)}
    (m : JsMap.t V) :
  JsMap.wf m →
  filter (λ kv, kv.1 ∉ (filter Q m).*1) m = filter (λ kv, ¬ Q kv) m.
Proof.
  intros Hwf. apply filter_ext_in. intros [k v] Hin. cbn. split.
  - intros Hnotin HQ. apply Hnotin, list_elem_of_fmap. exists (k, v).
    split; [done|]. by apply list_elem_of_filter.
  - intros HnQ ([k' v'] & Hk & [HQ Hin']%list_elem_of_filter)%list_elem_of_fmap.
    cbn in Hk. subst k'.
    by rewrite (JsMap_wf_unique k v v' m Hwf Hin Hin') in HnQ.
Qed.

Lemma not_elem_of_cons_filter {V} (k : SocketId) (ks : list SocketId) (m : JsMap.t V) :
  filter (λ kv, kv.1 ∉ ks) (JsMap.delete k m) = filter (λ kv, kv.1 ∉ k :: ks) m.
Proof.
  unfold JsMap.delete. rewrite list_filter_filter. apply list_filter_iff.
  intros [k' v']. cbn. rewrite not_elem_of_cons. tauto.
Qed.

(** ** The heartbeat check as a function of the heartbeat Map *)

Lemma sweep_heartbeats now entries st :
  heartbeats (stateOf (forEach entries (checkHeartbeat now) st)) =
  filter (λ kv, kv.1 ∉ (filter (λ e, now - e.2 > HEARTBEAT_TIMEOUT) entries).*1)
         (heartbeats st).
Proof.
  revert st. induction entries as [|[k t] entries IH]; intros st.
  - cbn. symmetry. apply filter_all, Forall_forall.
    intros kv _. apply not_elem_of_nil.
  - rewrite forEach_cons_state, IH, filter_cons. cbn [snd].
    destruct (checkHeartbeat_cases now k t st)
      as [[Hfresh ->]|[(Hold & _ & ->)|(Hold & _ & ->)]].
    + by rewrite decide_False.
    + rewrite decide_True by done. unfold dropBeat. cbn [heartbeats].
      by rewrite not_elem_of_cons_filter.
    + rewrite decide_True by done. unfold closed. cbn [heartbeats].
      by rewrite not_elem_of_cons_filter.
Qed.

Lemma sweep_of_fresh now entries st :
  Forall (freshBeat now) entries →
  forEach entries (checkHeartbeat now) st = ((), st, []).
Proof.
  induction 1 as [|[k t] entries Hfresh _ IH]; [done|].
  cbn [forEach]. unfold mbind, M_bind.
  rewrite checkHeartbeat_fresh by exact Hfresh. by rewrite IH.
Qed.

Lemma heartbeatCheck_leaves_fresh now st :
  Forall (freshBeat now) (heartbeats (stateOf (heartbeatCheck now st))).
Proof.
  rewrite heartbeatCheck_state, sweep_heartbeats. apply Forall_forall.
  intros [k t] [Hnotin Hin]%list_elem_of_filter Hold. apply Hnotin.
  apply list_elem_of_fmap. exists (k, t). split; [done|].
  by apply list_elem_of_filter.
Qed.

(** ** Further properties of the server *)

Lemma onConnection_received socketId now st :
  received socketId (effectsOf (onConnection socketId now st))
  = (λ msg, (event msg, data msg)) <$> default [] (messageQueue st !! socketId).
Proof.
  destruct (messageQueue st !! socketId) as [msgs|] eqn:Hq.
  - by destruct (connection_flushes_mailbox socketId now msgs st Hq) as [-> _].
  - by rewrite onConnection_effects, Hq.
Qed.

(** X1.  The connection handler sends the new socket the entries of its
    mailbox, in the order they were pushed and once each (nothing when
    there is no mailbox), deletes that mailbox, and stamps the socket's
    heartbeat with the current time; it sends nothing to any other socket
    and leaves the other mailboxes alone. *)
Theorem connection_delivers_its_mailbox socketId now st :
  let r := onConnection socketId now st in
  received socketId (effectsOf r)
    = (λ msg, (event msg, data msg)) <$> default [] (messageQueue st !! socketId)
  ∧ messageQueue (stateOf r) !! socketId = None
  ∧ JsMap.get socketId (heartbeats (stateOf r)) = Some now
  ∧ (∀ other, other ≠ socketId →
       received other (effectsOf r) = []
       ∧ messageQueue (stateOf r) !! other = messageQueue st !! other).
Proof.
  cbn zeta. split; [apply onConnection_received|].
  rewrite onConnection_state, onConnection_effects. cbn [messageQueue heartbeats].
  split; [|split].
  - destruct (messageQueue st !! socketId) eqn:Hq; [apply lookup_delete_eq | done].
  - apply JsMap_get_set_eq.
  - intros other Hne. split.
    + cbn. destruct (messageQueue st !! socketId) as [msgs|]; [|done].
      induction msgs as [|msg msgs IH]; [done|].
      cbn. by rewrite decide_False.
    + destruct (messageQueue st !! socketId); [by rewrite lookup_delete_ne | done].
Qed.

(** X2.  The mailbox round trip.  While a display is registered and its
    socket is not connected, a sequence of broadcasts followed by the
    connection handler for that socket id sends it what was already in
    its mailbox and then one [presentationUpdate] per broadcast, in issue
    order and once each, and leaves no mailbox behind.  Each of these
    events carries the display's registry entry. *)
Theorem queued_broadcasts_are_flushed_in_order
    w m sender (payloads : list JsValue) callback now st :
  JsMap.wf (presentationWindows st) →
  JsMap.get w (presentationWindows st) = Some m →
  socketConnected w st = false →
  let queued := stateOf
    (forEach payloads (λ payload, onPresentationUpdate sender payload callback) st) in
  received w (effectsOf (onConnection w now queued))
    = ((λ msg, (event msg, data msg)) <$> default [] (messageQueue st !! w))
      ++ ((λ _, ("presentationUpdate", metaValue m)) <$> payloads)
  ∧ messageQueue (stateOf (onConnection w now queued)) !! w = None.
Proof.
  intros Hwf Hget Hc queued. split.
  - rewrite onConnection_received. unfold queued.
    rewrite (broadcasts_queued w m) by done.
    destruct payloads as [|p payloads]; [by rewrite app_nil_r|].
    rewrite !fmap_cons. cbn [pushed default]. unfold id.
    rewrite fmap_app, fmap_cons. f_equal. f_equal.
    by rewrite <- list_fmap_compose.
  - rewrite onConnection_state. cbn [messageQueue].
    destruct (messageQueue queued !! w) eqn:Hq; [apply lookup_delete_eq | done].
Qed.

(** On the display "A" of [displayUnreachable] and two broadcasts. *)
Lemma queued_broadcasts_are_flushed_in_order_witness :
  let st := displayUnreachable in
  let queued := stateOf
    (forEach [seg1; seg2] (λ payload, onPresentationUpdate "ctl" payload true) st) in
  JsMap.wf (presentationWindows st)
  ∧ JsMap.get "A" (presentationWindows st) = Some (mkMeta 1000 1000)
  ∧ socketConnected "A" st = false
  ∧ received "A" (effectsOf (onConnection "A" 6000 queued))
    = [("presentationUpdate", metaValue (mkMeta 1000 1000));
       ("presentationUpdate", metaValue (mkMeta 1000 1000))].
Proof.
  assert (Hwf : JsMap.wf (presentationWindows displayUnreachable)).
  { unfold JsMap.wf, JsMap.keys. apply (bool_decide_unpack _). by vm_compute. }
  assert (Hget : JsMap.get "A" (presentationWindows displayUnreachable)
                 = Some (mkMeta 1000 1000)) by reflexivity.
  assert (Hc : socketConnected "A" displayUnreachable = false) by (by vm_compute).
  destruct (queued_broadcasts_are_flushed_in_order
              "A" (mkMeta 1000 1000) "ctl" [seg1; seg2] true 6000
              displayUnreachable Hwf Hget Hc) as [Hrecv _].
  intros st queued. split; [exact Hwf|]. split; [exact Hget|]. split; [exact Hc|].
  exact Hrecv.
Defined.

Lemma onPing_state socketId now st :
  stateOf (onPing socketId now st) =
  mkServer (sockets st) (presentationWindows st) (controlPanels st)
           (messageQueue st) (JsMap.set socketId now (heartbeats st)).
Proof. unfold onPing. by rewrite bind_state. Qed.

Lemma onPing_effects socketId now st :
  effectsOf (onPing socketId now st) = [Emit socketId "pong" JsUndefined].
Proof. unfold onPing. by rewrite bind_effects. Qed.

(** X3.  A ping is answered with [pong] and stamps the socket's heartbeat;
    any heartbeat check that runs no later than [HEARTBEAT_TIMEOUT] after
    the ping leaves the socket open and its role entries and heartbeat as
    they were. *)
Theorem ping_protects_from_the_heartbeat_check socketId now st :
  JsMap.wf (heartbeats st) →
  let pinged := onPing socketId now st in
  received socketId (effectsOf pinged) = [("pong", JsUndefined)]
  ∧ JsMap.get socketId (heartbeats (stateOf pinged)) = Some now
  ∧ (∀ later, (later - now ≤ HEARTBEAT_TIMEOUT)%Z →
       let checked := stateOf (heartbeatCheck later (stateOf pinged)) in
       sockets checked !! socketId = sockets st !! socketId
       ∧ JsMap.get socketId (presentationWindows checked)
         = JsMap.get socketId (presentationWindows st)
       ∧ JsMap.get socketId (controlPanels checked)
         = JsMap.get socketId (controlPanels st)
       ∧ JsMap.get socketId (heartbeats checked) = Some now).
Proof.
  intros Hwf pinged. unfold pinged. rewrite onPing_state, onPing_effects.
  split; [cbn; by rewrite decide_True|].
  split; [apply JsMap_get_set_eq|].
  intros later Hlater.
  set (st1 := mkServer (sockets st) (presentationWindows st) (controlPanels st)
                       (messageQueue st) (JsMap.set socketId now (heartbeats st))).
  destruct (heartbeatCheck_keeps_fresh later socketId now st1) as (H1 & H2 & H3 & H4).
  - by apply JsMap_wf_set.
  - apply JsMap_get_set_eq.
  - done.
  - done.
Qed.

(** On the display of [controlAndDisplay], pinging at 50 s. *)
Lemma ping_protects_from_the_heartbeat_check_witness :
  let st := stateOf (run controlAndDisplay initial) in
  JsMap.wf (heartbeats st)
  ∧ socketConnected "A" (stateOf (heartbeatCheck 110000 (stateOf (onPing "A" 50000 st))))
    = true.
Proof.
  intros st.
  assert (Hwf : JsMap.wf (heartbeats st)).
  { unfold JsMap.wf, JsMap.keys. apply (bool_decide_unpack _). by vm_compute. }
  destruct (ping_protects_from_the_heartbeat_check "A" 50000 st Hwf) as (_ & _ & H).
  destruct (H 110000 ltac:(by vm_compute)) as (Hs & _).
  split; [exact Hwf|]. unfold socketConnected. rewrite Hs. by vm_compute.
Defined.

(** X4.  After a heartbeat check the heartbeat Map holds exactly the
    entries that were within [HEARTBEAT_TIMEOUT], in their order. *)
Theorem heartbeat_check_keeps_the_fresh_entries now st :
  JsMap.wf (heartbeats st) →
  heartbeats (stateOf (heartbeatCheck now st)) = filter (freshBeat now) (heartbeats st).
Proof.
  intros Hwf. rewrite heartbeatCheck_state, sweep_heartbeats.
  apply (JsMap_delete_keys (λ e, now - e.2 > HEARTBEAT_TIMEOUT) _ Hwf).
Qed.

(** On [silentDisplay] at 70 s: the control panel pinged at 50 s, the
    display has been silent since 1 s. *)
Lemma heartbeat_check_keeps_the_fresh_entries_witness :
  let st := stateOf (run silentDisplay initial) in
  JsMap.wf (heartbeats st)
  ∧ heartbeats (stateOf (heartbeatCheck 70000 st)) = [("ctl", 50000)].
Proof.
  intros st.
  assert (Hwf : JsMap.wf (heartbeats st)).
  { unfold JsMap.wf, JsMap.keys. apply (bool_decide_unpack _). by vm_compute. }
  split; [exact Hwf|].
  rewrite (heartbeat_check_keeps_the_fresh_entries 70000 st Hwf). by vm_compute.
Defined.

(** X5.  A heartbeat check leaves no entry older than [HEARTBEAT_TIMEOUT],
    so a second check at the same instant changes nothing, closes no
    socket and sends nothing. *)
Theorem heartbeat_check_twice_is_once now st :
  Forall (freshBeat now) (heartbeats (stateOf (heartbeatCheck now st)))
  ∧ heartbeatCheck now (stateOf (heartbeatCheck now st))
    = ((), stateOf (heartbeatCheck now st), []).
Proof.
  pose proof (heartbeatCheck_leaves_fresh now st) as Hfresh.
  split; [exact Hfresh|].
  set (st' := stateOf (heartbeatCheck now st)) in *. clearbody st'.
  unfold heartbeatCheck, mbind, M_bind, gets.
  by rewrite sweep_of_fresh.
Qed.

(** ** The stale sweep as a function of the two role Maps *)

Lemma wire_log line : wire [Log line] = [].
Proof. done. Qed.

Lemma staleWindows_result now snapshot st :
  let r := forEach snapshot (dropStaleWindow now) st in
  stateOf r =
    mkServer (sockets st)
      (filter (λ kv, kv.1 ∉ (filter (λ e, now - lastHeartbeat e.2 > staleTimeout)
                                     snapshot).*1)
              (presentationWindows st))
      (controlPanels st) (messageQueue st) (heartbeats st)
  ∧ wire (effectsOf r) = [].
Proof.
  revert st. induction snapshot as [|[id m] snapshot IH]; intros st; cbn zeta.
  - cbn. split; [|done]. destruct st as [s w c q h]. cbn. f_equal.
    symmetry. apply filter_all, Forall_forall. intros kv _. apply not_elem_of_nil.
  - rewrite forEach_cons_state, forEach_cons_effects, wire_app, filter_cons.
    destruct (IH (stateOf (dropStaleWindow now (id, m) st))) as [-> ->].
    unfold dropStaleWindow. cbn [snd].
    destruct (decide (now - lastHeartbeat m > staleTimeout)) as [Hold|Hfresh].
    + rewrite bool_decide_eq_true_2 by done. cbn [when].
      rewrite bind_state, bind_effects. cbn.
      split; [|done]. f_equal. apply (not_elem_of_cons_filter id).
    + rewrite bool_decide_eq_false_2 by done. by cbn.
Qed.

Lemma stalePanels_result now snapshot st :
  let r := forEach snapshot (dropStalePanel now) st in
  stateOf r =
    mkServer (sockets st) (presentationWindows st)
      (filter (λ kv, kv.1 ∉ (filter (λ e, now - lastHeartbeat e.2 > staleTimeout)
                                     snapshot).*1)
              (controlPanels st))
      (messageQueue st) (heartbeats st)
  ∧ wire (effectsOf r) = [].
Proof.
  revert st. induction snapshot as [|[id m] snapshot IH]; intros st; cbn zeta.
  - cbn. split; [|done]. destruct st as [s w c q h]. cbn. f_equal.
    symmetry. apply filter_all, Forall_forall. intros kv _. apply not_elem_of_nil.
  - rewrite forEach_cons_state, forEach_cons_effects, wire_app, filter_cons.
    destruct (IH (stateOf (dropStalePanel now (id, m) st))) as [-> ->].
    unfold dropStalePanel. cbn [snd].
    destruct (decide (now - lastHeartbeat m > staleTimeout)) as [Hold|Hfresh].
    + rewrite bool_decide_eq_true_2 by done. cbn [when].
      rewrite bind_state, bind_effects. cbn.
      split; [|done]. f_equal. apply (not_elem_of_cons_filter id).
    + rewrite bool_decide_eq_false_2 by done. by cbn.
Qed.

(** X6.  The stale sweep keeps in each role Map exactly the entries whose
    [lastHeartbeat] is within [staleTimeout], in their order.  That is
    all it does: it closes no socket, touches neither the mailboxes nor
    the heartbeats, and sends nothing, so the socket of an entry it drops
    stays open and no control panel is told. *)
Theorem stale_sweep_keeps_the_fresh_entries now st :
  JsMap.wf (presentationWindows st) →
  JsMap.wf (controlPanels st) →
  let r := staleCheck now st in
  presentationWindows (stateOf r) = filter (freshEntry now) (presentationWindows st)
  ∧ controlPanels (stateOf r) = filter (freshEntry now) (controlPanels st)
  ∧ sockets (stateOf r) = sockets st
  ∧ messageQueue (stateOf r) = messageQueue st
  ∧ heartbeats (stateOf r) = heartbeats st
  ∧ wire (effectsOf r) = [].
Proof.
  intros Hw Hc. cbn zeta. unfold staleCheck.
  rewrite !bind_state, !bind_effects. cbn [gets stateOf effectsOf fst snd].
  rewrite !app_nil_l.
  destruct (staleWindows_result now (presentationWindows st) st) as [-> Hout1].
  cbn [controlPanels].
  match goal with
  | |- context [forEach (controlPanels st) (dropStalePanel now) ?s] =>
      destruct (stalePanels_result now (controlPanels st) s) as [-> Hout2]
  end.
  rewrite wire_app, Hout1, Hout2. cbn.
  split; [|split; [|done]].
  - apply (JsMap_delete_keys (λ e, now - lastHeartbeat e.2 > staleTimeout) _ Hw).
  - apply (JsMap_delete_keys (λ e, now - lastHeartbeat e.2 > staleTimeout) _ Hc).
Qed.

(** On [oneStaleDisplay] at 400 s: the display "old" and the control
    panel are dropped, their sockets stay open. *)
Lemma stale_sweep_keeps_the_fresh_entries_witness :
  let st := oneStaleDisplay in
  let r := staleCheck 400000 st in
  JsMap.wf (presentationWindows st)
  ∧ JsMap.wf (controlPanels st)
  ∧ presentationWindows (stateOf r) = [("new", mkMeta 200000 200000)]
  ∧ controlPanels (stateOf r) = []
  ∧ socketConnected "old" (stateOf r) = true.
Proof.
  assert (Hw : JsMap.wf (presentationWindows oneStaleDisplay)).
  { unfold JsMap.wf, JsMap.keys. apply (bool_decide_unpack _). by vm_compute. }
  assert (Hc : JsMap.wf (controlPanels oneStaleDisplay)).
  { unfold JsMap.wf, JsMap.keys. apply (bool_decide_unpack _). by vm_compute. }
  destruct (stale_sweep_keeps_the_fresh_entries 400000 oneStaleDisplay Hw Hc)
    as (Hpw & Hcp & Hs & _).
  cbv zeta. split; [exact Hw|]. split; [exact Hc|].
  split; [rewrite Hpw; by vm_compute|]. split; [rewrite Hcp; by vm_compute|].
  unfold socketConnected. rewrite Hs. by vm_compute.
Defined.

(** ** [Consistent] holds in every state the server can reach *)

Lemma Consistent_initial : Consistent initial.
Proof.
  unfold Consistent, initial, socketConnected, JsMap.wf, JsMap.keys. cbn.
  split; [|split; [|split; [|split]]].
  - intros id. rewrite lookup_empty. split; [done | by intros ?%elem_of_nil].
  - intros id [b H]. by rewrite lookup_empty in H.
  - by intros id ?%elem_of_nil.
  - by intros id ?%elem_of_nil.
  - repeat split; constructor.
Qed.

Lemma Consistent_mailbox st id : Consistent st → messageQueue st !! id = None.
Proof. intros (_ & _ & _ & _ & -> & _). apply lookup_empty. Qed.

Lemma Consistent_intro st :
  (∀ c, socketConnected c st = true → c ∈ JsMap.keys (heartbeats st)) →
  (∀ c, c ∈ JsMap.keys (heartbeats st) → socketConnected c st = true) →
  (∀ c, is_Some (sockets st !! c) → socketConnected c st = true) →
  (∀ c, c ∈ JsMap.keys (presentationWindows st) → socketConnected c st = true) →
  (∀ c, c ∈ JsMap.keys (controlPanels st) → socketConnected c st = true) →
  messageQueue st = ∅ →
  JsMap.wf (presentationWindows st) →
  JsMap.wf (controlPanels st) →
  JsMap.wf (heartbeats st) →
  Consistent st.
Proof. unfold Consistent. intros. repeat split; auto. Qed.

Lemma Consistent_open id now st :
  Consistent st → sockets st !! id = None →
  Consistent (mkServer (<[id := true]> (sockets st)) (presentationWindows st)
                       (controlPanels st) (messageQueue st)
                       (JsMap.set id now (heartbeats st))).
Proof.
  intros (Hb & Hs & Hw & Hc & Hq & Wfw & Wfc & Wfb) Hnone.
  set (st' := mkServer _ _ _ _ _).
  assert (Hself : socketConnected id st' = true).
  { unfold socketConnected, st'. cbn. by rewrite lookup_insert_eq. }
  assert (Hconn : ∀ c, c ≠ id → socketConnected c st' = socketConnected c st).
  { intros c Hne. unfold socketConnected, st'. cbn. by rewrite lookup_insert_ne. }
  assert (Hold : ∀ c, socketConnected c st = true → socketConnected c st' = true).
  { intros c Hcc. destruct (decide (c = id)) as [->|Hne]; [done|]. by rewrite Hconn. }
  apply Consistent_intro; unfold st' at 1; cbn; auto using JsMap_wf_set.
  - intros c Hcc. apply JsMap_keys_set.
    destruct (decide (c = id)) as [->|Hne]; [by left|right].
    apply Hb. by rewrite <- Hconn.
  - intros c [->|Hin]%JsMap_keys_set; [done|]. by apply Hold, Hb.
  - intros c Hsome. destruct (decide (c = id)) as [->|Hne]; [done|].
    rewrite lookup_insert_ne in Hsome by done. by apply Hold, Hs.
Qed.

Lemma Consistent_beat id now st :
  Consistent st → socketConnected id st = true →
  Consistent (mkServer (sockets st) (presentationWindows st) (controlPanels st)
                       (messageQueue st) (JsMap.set id now (heartbeats st))).
Proof.
  intros (Hb & Hs & Hw & Hc & Hq & Wfw & Wfc & Wfb) Hcc.
  apply Consistent_intro; cbn; auto using JsMap_wf_set.
  - intros c H. apply JsMap_keys_set. right. by apply Hb.
  - intros c [->|Hin]%JsMap_keys_set; [done|]. by apply Hb.
Qed.

Lemma Consistent_display id meta st :
  Consistent st → socketConnected id st = true →
  Consistent (mkServer (sockets st) (JsMap.set id meta (presentationWindows st))
                       (controlPanels st) (messageQueue st) (heartbeats st)).
Proof.
  intros (Hb & Hs & Hw & Hc & Hq & Wfw & Wfc & Wfb) Hcc.
  apply Consistent_intro; cbn; auto using JsMap_wf_set.
  - intros c. apply Hb.
  - intros c. apply Hb.
  - intros c [->|Hin]%JsMap_keys_set; [done|]. by apply Hw.
Qed.

Lemma Consistent_control id meta st :
  Consistent st → socketConnected id st = true →
  Consistent (mkServer (sockets st) (presentationWindows st)
                       (JsMap.set id meta (controlPanels st))
                       (messageQueue st) (heartbeats st)).
Proof.
  intros (Hb & Hs & Hw & Hc & Hq & Wfw & Wfc & Wfb) Hcc.
  apply Consistent_intro; cbn; auto using JsMap_wf_set.
  - intros c. apply Hb.
  - intros c. apply Hb.
  - intros c [->|Hin]%JsMap_keys_set; [done|]. by apply Hc.
Qed.

Lemma Consistent_closed id st : Consistent st → Consistent (closed id st).
Proof.
  intros (Hb & Hs & Hw & Hc & Hq & Wfw & Wfc & Wfb).
  assert (Hconn : ∀ c, c ≠ id →
            socketConnected c (closed id st) = socketConnected c st).
  { intros c Hne. unfold socketConnected, closed. cbn. by rewrite lookup_delete_ne. }
  assert (Hself : socketConnected id (closed id st) = false).
  { unfold socketConnected, closed. cbn. by rewrite lookup_delete_eq. }
  apply Consistent_intro.
  - intros c Hcc. unfold closed. cbn [heartbeats]. apply JsMap_keys_delete.
    destruct (decide (c = id)) as [->|Hne]; [congruence|].
    split; [done|]. apply Hb. by rewrite <- Hconn.
  - intros c Hin. unfold closed in Hin. cbn [heartbeats] in Hin.
    apply JsMap_keys_delete in Hin as [Hne Hin]. rewrite Hconn by done. by apply Hb.
  - intros c Hsome. unfold closed in Hsome. cbn [sockets] in Hsome.
    destruct (decide (c = id)) as [->|Hne].
    + rewrite lookup_delete_eq in Hsome. by destruct Hsome.
    + rewrite lookup_delete_ne in Hsome by done. rewrite Hconn by done. by apply Hs.
  - intros c Hin. unfold closed in Hin. cbn [presentationWindows] in Hin.
    apply JsMap_keys_delete in Hin as [Hne Hin]. rewrite Hconn by done. by apply Hw.
  - intros c Hin. unfold closed in Hin. cbn [controlPanels] in Hin.
    apply JsMap_keys_delete in Hin as [Hne Hin]. rewrite Hconn by done. by apply Hc.
  - unfold closed. cbn [messageQueue]. rewrite Hq. apply delete_empty.
  - by apply JsMap_wf_delete.
  - by apply JsMap_wf_delete.
  - by apply JsMap_wf_delete.
Qed.

Lemma Consistent_dropBeat k st :
  Consistent st → socketConnected k st = false → Consistent (dropBeat k st).
Proof.
  intros HC Hk. assert (Hsame : dropBeat k st = st); [|by rewrite Hsame].
  destruct HC as (Hb & _). unfold dropBeat.
  rewrite JsMap_delete_absent; [by destruct st|].
  apply not_true_is_false. rewrite JsMap_has_elem_of. intros Hin%Hb. congruence.
Qed.

Lemma Consistent_dropWindow id st :
  Consistent st →
  Consistent (mkServer (sockets st) (JsMap.delete id (presentationWindows st))
                       (controlPanels st) (messageQueue st) (heartbeats st)).
Proof.
  intros (Hb & Hs & Hw & Hc & Hq & Wfw & Wfc & Wfb).
  apply Consistent_intro; cbn; auto using JsMap_wf_delete.
  - intros c. apply Hb.
  - intros c. apply Hb.
  - intros c [_ Hin]%JsMap_keys_delete. by apply Hw.
Qed.

Lemma Consistent_dropPanel id st :
  Consistent st →
  Consistent (mkServer (sockets st) (presentationWindows st)
                       (JsMap.delete id (controlPanels st))
                       (messageQueue st) (heartbeats st)).
Proof.
  intros (Hb & Hs & Hw & Hc & Hq & Wfw & Wfc & Wfb).
  apply Consistent_intro; cbn; auto using JsMap_wf_delete.
  - intros c. apply Hb.
  - intros c. apply Hb.
  - intros c [_ Hin]%JsMap_keys_delete. by apply Hc.
Qed.

(** A property kept by the body of a loop is kept by the loop. *)
Lemma forEach_preserves {A} (P : Server → Prop) (body : A → M ()) l st :
  (∀ x st, P st → P (stateOf (body x st))) →
  P st → P (stateOf (forEach l body st)).
Proof.
  intros Hbody. revert st. induction l as [|x l IH]; intros st HP; [done|].
  rewrite forEach_cons_state. by apply IH, Hbody.
Qed.

(** When every display has a connected socket the fan-out queues nothing
    and the state is left as it is. *)
Lemma relay_all_connected (windows : JsMap.t Meta) st :
  (∀ w, w ∈ JsMap.keys windows → socketConnected w st = true) →
  stateOf (forEach windows relayTo st) = st.
Proof.
  unfold JsMap.keys. induction windows as [|[w m] windows IH]; intros Hall; [done|].
  rewrite forEach_cons_state, relayTo_healthy by (apply Hall; left).
  apply IH. intros w' Hin. apply Hall. by right.
Qed.

Lemma fromSocket_state socketId handler st :
  stateOf (fromSocket socketId handler st) =
  if socketConnected socketId st then stateOf (handler st) else st.
Proof.
  unfold fromSocket. rewrite bind_state. cbn. by destruct (socketConnected _ _).
Qed.

Lemma step_Consistent now e st : Consistent st → Consistent (stateOf (step now e st)).
Proof.
  intros HC.
  destruct e as [id|id|id payload cb|id payload cb|id payload cb|id reason|id| |];
    cbn [step]; rewrite ?fromSocket_state.
  - unfold socketOpen. rewrite bind_state. cbn.
    destruct (sockets st !! id) as [b|] eqn:Hs.
    + by rewrite bool_decide_eq_true_2.
    + rewrite bool_decide_eq_false_2 by (by intros [? ?]).
      rewrite bind_state. cbn. rewrite onConnection_state. cbn.
      rewrite (Consistent_mailbox st id HC). by apply Consistent_open.
  - destruct (socketConnected id st) eqn:Hc; [|done].
    rewrite onPing_state. by apply Consistent_beat.
  - destruct (socketConnected id st) eqn:Hc; [|done].
    rewrite onRegisterPresentation_state. by apply Consistent_display.
  - destruct (socketConnected id st) eqn:Hc; [|done].
    rewrite onRegisterControl_state. by apply Consistent_control.
  - destruct (socketConnected id st) eqn:Hc; [|done].
    rewrite onPresentationUpdate_state, relay_all_connected; [done|].
    by destruct HC as (_ & _ & Hw & _).
  - destruct (socketConnected id st) eqn:Hc.
    + destruct (socketClose_connected id reason st Hc) as [-> _].
      by apply Consistent_closed.
    + by rewrite socketClose_not_connected.
  - by destruct (socketConnected id st).
  - rewrite heartbeatCheck_state. apply forEach_preserves; [|done].
    intros [k t] st' HC'.
    destruct (checkHeartbeat_cases now k t st')
      as [[_ ->]|[(_ & Hk & ->)|(_ & _ & ->)]];
      auto using Consistent_dropBeat, Consistent_closed.
  - unfold staleCheck. rewrite !bind_state. cbn [gets stateOf fst snd].
    apply forEach_preserves.
    + intros [id m] st' HC'. unfold dropStalePanel.
      destruct (bool_decide _); [|done]. cbn [when]. rewrite bind_state. cbn.
      by apply Consistent_dropPanel.
    + apply forEach_preserves; [|done].
      intros [id m] st' HC'. unfold dropStaleWindow.
      destruct (bool_decide _); [|done]. cbn [when]. rewrite bind_state. cbn.
      by apply Consistent_dropWindow.
Qed.

Lemma run_Consistent trace st : Consistent st → Consistent (stateOf (run trace st)).
Proof.
  unfold run. apply forEach_preserves. intros [now e]. apply step_Consistent.
Qed.

(** X7.  In every state the server reaches from its start, whatever the
    clients and the timers do: every registered display and every
    registered control panel has a connected socket, a socket is
    connected exactly when it has a heartbeat entry, and no socket of the
    table is left unconnected. *)
Theorem registered_sockets_are_connected trace :
  let st := stateOf (run trace initial) in
  (∀ id, id ∈ JsMap.keys (presentationWindows st) ∨ id ∈ JsMap.keys (controlPanels st) →
         socketConnected id st = true)
  ∧ (∀ id, socketConnected id st = true ↔ id ∈ JsMap.keys (heartbeats st))
  ∧ (∀ id, is_Some (sockets st !! id) → socketConnected id st = true).
Proof.
  destruct (run_Consistent trace initial Consistent_initial)
    as (Hb & Hs & Hw & Hc & _).
  cbn zeta. split; [|by split]. intros id [?|?]; auto.
Qed.

(** X8.  In every state the server reaches from its start no mailbox
    exists, and a broadcast sends each registered display its one
    [presentationUpdate] directly and leaves the whole state as it is:
    the branch that queues for an unreachable display is never taken,
    because a socket leaves the socket table in the same turn in which
    its 'disconnect' listener removes its registration. *)
Theorem mailboxes_are_never_used trace :
  let st := stateOf (run trace initial) in
  messageQueue st = ∅
  ∧ (∀ sender payload callback,
       stateOf (onPresentationUpdate sender payload callback st) = st)
  ∧ (∀ sender payload callback w m,
       JsMap.get w (presentationWindows st) = Some m →
       received w (effectsOf (onPresentationUpdate sender payload callback st))
       = [("presentationUpdate", metaValue m)]).
Proof.
  destruct (run_Consistent trace initial Consistent_initial)
    as (Hb & Hs & Hw & Hc & Hq & Wfw & _).
  cbn zeta. split; [done|]. split.
  - intros sender payload callback.
    by rewrite onPresentationUpdate_state, relay_all_connected.
  - intros sender payload callback w m Hget.
    rewrite onPresentationUpdate_effects. log_first.
    rewrite !received_app, relay_received.
    rewrite (Hw w) by (by eapply JsMap_get_elem_of).
    rewrite (JsMap_wf_get_filter w m) by done.
    destruct callback; by cbn.
Qed.

(** X9.  The 'disconnect' listener removes the role entries, the mailbox
    and the heartbeat entry of its own socket and nothing else: the
    entries of every other socket are as before.  What it sends goes to
    connected, registered control panels only, and it sends nothing at all
    when the socket was not a registered display. *)
Theorem disconnect_removes_only_its_own_entries socketId reason st :
  let r := onDisconnect socketId reason st in
  (JsMap.has socketId (presentationWindows (stateOf r)) = false
   ∧ JsMap.has socketId (controlPanels (stateOf r)) = false
   ∧ messageQueue (stateOf r) !! socketId = None
   ∧ JsMap.has socketId (heartbeats (stateOf r)) = false)
  ∧ sockets (stateOf r) = sockets st
  ∧ (∀ other, other ≠ socketId →
       JsMap.get other (presentationWindows (stateOf r))
         = JsMap.get other (presentationWindows st)
       ∧ JsMap.get other (controlPanels (stateOf r))
         = JsMap.get other (controlPanels st)
       ∧ messageQueue (stateOf r) !! other = messageQueue st !! other
       ∧ JsMap.get other (heartbeats (stateOf r)) = JsMap.get other (heartbeats st))
  ∧ (JsMap.has socketId (presentationWindows st) = false → wire (effectsOf r) = [])
  ∧ (∀ e, e ∈ wire (effectsOf r) →
       ∃ c, e = departureNotice c
            ∧ c ∈ JsMap.keys (controlPanels st)
            ∧ socketConnected c st = true).
Proof.
  cbn zeta. rewrite onDisconnect_state, onDisconnect_effects.
  cbn [sockets presentationWindows controlPanels messageQueue heartbeats].
  split; [|split; [done|split; [|split]]].
  - by rewrite !JsMap_has_delete_eq, lookup_delete_eq.
  - intros other Hne.
    by rewrite !(JsMap_get_delete_ne socketId other), lookup_delete_ne.
  - by intros ->.
  - destruct (JsMap.has socketId (presentationWindows st)).
    + change (Log ?l :: ?out) with ([Log l] ++ out).
      rewrite wire_app, wire_log, wire_notices. cbn [app].
      intros e (c & -> & [Hc Hin]%list_elem_of_filter)%list_elem_of_fmap.
      by exists c.
    + cbn. by intros e ?%elem_of_nil.
Qed.

(** X10.  When a display registers, the server acknowledges and then
    tells every registered control panel, in the order they registered,
    with a [presentationConnected] that carries the id of the display.
    When a control panel registers, the server acknowledges and tells
    nobody. *)
Theorem arrival_of_a_display_is_announced socketId now payload callback st :
  wire (effectsOf (onRegisterPresentation socketId now payload callback st))
    = (if callback then [Ack successResponse] else [])
      ++ ((λ c, EmitRoom c "presentationConnected" (idObject socketId))
            <$> JsMap.keys (controlPanels st))
  ∧ wire (effectsOf (onRegisterControl socketId now payload callback st))
    = (if callback then [Ack successResponse] else []).
Proof.
  rewrite onRegisterPresentation_effects, onRegisterControl_effects. split.
  - log_first. rewrite !wire_app, wire_log. cbn [app]. f_equal.
    + by destruct callback.
    + unfold JsMap.keys. rewrite <- list_fmap_compose.
      induction (controlPanels st) as [|[c m] panels IH]; [done|].
      rewrite !fmap_cons. unfold wire in *. rewrite filter_cons_True by done.
      by rewrite IH.
  - by destruct callback.
Qed.

Lemma broadcasts_frame sender (payloads : list JsValue) callback st :
  let st' := stateOf
    (forEach payloads (λ payload, onPresentationUpdate sender payload callback) st) in
  sockets st' = sockets st
  ∧ presentationWindows st' = presentationWindows st
  ∧ controlPanels st' = controlPanels st
  ∧ heartbeats st' = heartbeats st.
Proof.
  cbn zeta.
  apply (forEach_preserves (λ s, sockets s = sockets st
    ∧ presentationWindows s = presentationWindows st
    ∧ controlPanels s = controlPanels st ∧ heartbeats s = heartbeats st)); [|done].
  intros payload s (<- & <- & <- & <-). rewrite onPresentationUpdate_state.
  apply relay_frame.
Qed.

(** X11.  Over any sequence of broadcasts, a display that is registered
    and connected is sent exactly one [presentationUpdate] per broadcast
    (each carrying its registry entry), and the broadcasts change neither
    the socket table nor the two role Maps nor the heartbeats. *)
Theorem one_event_per_broadcast w m sender (payloads : list JsValue) callback st :
  JsMap.wf (presentationWindows st) →
  JsMap.get w (presentationWindows st) = Some m →
  socketConnected w st = true →
  let r := forEach payloads
             (λ payload, onPresentationUpdate sender payload callback) st in
  received w (effectsOf r) = (λ _, ("presentationUpdate", metaValue m)) <$> payloads
  ∧ sockets (stateOf r) = sockets st
  ∧ presentationWindows (stateOf r) = presentationWindows st
  ∧ controlPanels (stateOf r) = controlPanels st
  ∧ heartbeats (stateOf r) = heartbeats st.
Proof.
  intros Hwf Hget Hc. cbn zeta. split.
  - by apply broadcasts_received.
  - apply broadcasts_frame.
Qed.

(** On display "B" of [oneDisplayUnreachable] and three broadcasts. *)
Lemma one_event_per_broadcast_witness :
  let st := oneDisplayUnreachable in
  JsMap.wf (presentationWindows st)
  ∧ JsMap.get "B" (presentationWindows st) = Some (mkMeta 1500 1500)
  ∧ socketConnected "B" st = true
  ∧ length (received "B" (effectsOf
      (forEach [seg1; seg2; JsNull]
         (λ payload, onPresentationUpdate "ctl" payload true) st))) = 3%nat.
Proof.
  assert (Hwf : JsMap.wf (presentationWindows oneDisplayUnreachable)).
  { unfold JsMap.wf, JsMap.keys. apply (bool_decide_unpack _). by vm_compute. }
  assert (Hget : JsMap.get "B" (presentationWindows oneDisplayUnreachable)
                 = Some (mkMeta 1500 1500)) by reflexivity.
  assert (Hc : socketConnected "B" oneDisplayUnreachable = true) by (by vm_compute).
  destruct (one_event_per_broadcast "B" (mkMeta 1500 1500) "ctl"
              [seg1; seg2; JsNull] true oneDisplayUnreachable Hwf Hget Hc) as [Hrecv _].
  cbv zeta. split; [exact Hwf|]. split; [exact Hget|]. split; [exact Hc|].
  by rewrite Hrecv.
Defined.

(** ** The presentation store *)

Lemma queued_id song (q : list Song.t) :
  existsb (λ s, bool_decide (Song.id s = Song.id song)) q = true
  ↔ Song.id song ∈ Song.id <$> q.
Proof.
  induction q as [|s q IH]; cbn.
  - split; [done | by intros ?%elem_of_nil].
  - rewrite orb_true_iff, IH, elem_of_cons, bool_decide_eq_true.
    split; (intros [H|H]; [left; congruence | by right]).
Qed.

Lemma addToQueue_known song state :
  Song.id song ∈ Store.queueIds state → Store.addToQueue song state = (state, []).
Proof.
  intros Hin%queued_id. unfold Store.addToQueue. cbn in Hin. by rewrite Hin.
Qed.

Lemma addToQueue_new song state :
  Song.id song ∉ Store.queueIds state →
  Store.addToQueue song state =
  (Store.mkState (Store.currentSong state) (Store.currentSegment state)
                 (Store.queue state ++ [song])
                 (Store.isPresenting state) (Store.presentationWindow state), []).
Proof.
  intros Hnotin. unfold Store.addToQueue.
  destruct (existsb _ _) eqn:He; [|done].
  by apply queued_id in He.
Qed.

(** X12.  [addToQueue] keeps the ids of the queued songs distinct: from a
    queue without a repeated id it yields a queue without a repeated id,
    which holds the song's id; the songs already queued keep their
    places, and nothing is sent to the relay. *)
Theorem addToQueue_keeps_ids_distinct song state :
  NoDup (Store.queueIds state) →
  let r := Store.addToQueue song state in
  NoDup (Store.queueIds r.1)
  ∧ Song.id song ∈ Store.queueIds r.1
  ∧ Store.queue state `prefix_of` Store.queue r.1
  ∧ r.2 = [].
Proof.
  intros Hnd. cbn zeta.
  destruct (decide (Song.id song ∈ Store.queueIds state)) as [Hin|Hnotin].
  - by rewrite addToQueue_known.
  - rewrite addToQueue_new by done. unfold Store.queueIds in *. cbn.
    rewrite fmap_app. cbn. repeat split.
    + apply NoDup_app. split; [done|]. split; [|apply NoDup_singleton].
      intros i Hi ->%list_elem_of_singleton. done.
    + apply elem_of_app. right. left.
    + by apply prefix_app_r.
Qed.

(** On the queue that holds "a", adding "b". *)
Lemma addToQueue_keeps_ids_distinct_witness :
  NoDup (Store.queueIds queueOfA)
  ∧ NoDup (Store.queueIds (Store.addToQueue songB queueOfA).1)
  ∧ "b" ∈ Store.queueIds (Store.addToQueue songB queueOfA).1.
Proof.
  assert (Hnd : NoDup (Store.queueIds queueOfA)).
  { apply (bool_decide_unpack _). by vm_compute. }
  destruct (addToQueue_keeps_ids_distinct songB queueOfA Hnd) as (Hnd' & Hin & _).
  split; [exact Hnd|]. split; [exact Hnd' | exact Hin].
Defined.

(** X13.  Once a song is queued, adding it again, or adding any song that
    has the same id, changes nothing: the state is the same and nothing
    is sent. *)
Theorem addToQueue_rejects_a_queued_id song other state :
  Song.id other = Song.id song →
  Store.addToQueue other (Store.addToQueue song state).1
  = ((Store.addToQueue song state).1, []).
Proof.
  intros Hid. apply addToQueue_known. rewrite Hid.
  destruct (decide (Song.id song ∈ Store.queueIds state)) as [Hin|Hnotin].
  - by rewrite addToQueue_known.
  - rewrite addToQueue_new by done. unfold Store.queueIds. cbn.
    rewrite fmap_app. apply elem_of_app. right. left.
Qed.

(** On the empty store: "a" is queued, then a song with the id "a" and
    another title is offered. *)
Lemma addToQueue_rejects_a_queued_id_witness :
  let other := Song.mk "a" "Another title" "" "" "" "" "" [] in
  Song.id other = Song.id songA
  ∧ Store.queue (Store.addToQueue other
                   (Store.addToQueue songA Store.initialState).1).1 = [songA].
Proof.
  intros other.
  assert (Hid : Song.id other = Song.id songA) by reflexivity.
  split; [exact Hid|].
  by rewrite (addToQueue_rejects_a_queued_id songA other Store.initialState Hid).
Defined.

Lemma removeFromQueue_is_current songId state :
  Store.isCurrent songId state = true →
  Store.currentSong (Store.removeFromQueue songId state).1 = None
  ∧ Store.currentSegment (Store.removeFromQueue songId state).1 = None
  ∧ (Store.removeFromQueue songId state).2
    = [Store.mkUpdate (Store.Given None) (Store.Given None)].
Proof. intros Hcur. unfold Store.removeFromQueue. by rewrite Hcur. Qed.

(** X14.  After [removeFromQueue] no queued song has the removed id and
    the current song, if there is one, is not the removed one.  When the
    current song had that id, song and segment are both cleared and one
    update [{song: null, segment: null}] is sent; otherwise song and
    segment are untouched and nothing is sent. *)
Theorem removeFromQueue_clears_the_removed_song songId state :
  let r := Store.removeFromQueue songId state in
  (songId ∉ Store.queueIds r.1)
  ∧ (∀ current, Store.currentSong r.1 = Some current → Song.id current ≠ songId)
  ∧ (Store.isCurrent songId state = true →
       Store.currentSong r.1 = None ∧ Store.currentSegment r.1 = None
       ∧ r.2 = [Store.mkUpdate (Store.Given None) (Store.Given None)])
  ∧ (Store.isCurrent songId state = false →
       Store.currentSong r.1 = Store.currentSong state
       ∧ Store.currentSegment r.1 = Store.currentSegment state
       ∧ r.2 = []).
Proof.
  cbn zeta. unfold Store.removeFromQueue.
  assert (Hq : songId ∉ Song.id <$> filter (λ s, Song.id s ≠ songId) (Store.queue state)).
  { intros (s & -> & [Hne _]%list_elem_of_filter)%list_elem_of_fmap. done. }
  destruct (Store.isCurrent songId state) eqn:Hcur; cbn.
  - repeat split; try done.
  - repeat split; try done. intros current Hsome.
    unfold Store.isCurrent in Hcur. rewrite Hsome in Hcur.
    by apply bool_decide_eq_false in Hcur.
Qed.

(** X15.  Queueing a song whose id is not in the queue and then removing
    that id gives the queue back; and removing an id that is not in the
    queue leaves the queue as it is. *)
Theorem add_then_remove_restores_the_queue song state :
  Song.id song ∉ Store.queueIds state →
  Store.queue (Store.removeFromQueue (Song.id song)
                 (Store.addToQueue song state).1).1 = Store.queue state
  ∧ Store.queue (Store.removeFromQueue (Song.id song) state).1 = Store.queue state.
Proof.
  intros Hnotin.
  assert (Hall : filter (λ s, Song.id s ≠ Song.id song) (Store.queue state)
                 = Store.queue state).
  { apply filter_all, Forall_forall. intros s Hs Heq. apply Hnotin.
    rewrite <- Heq. by apply list_elem_of_fmap_2. }
  split.
  - rewrite addToQueue_new by done. unfold Store.removeFromQueue.
    destruct (Store.isCurrent _ _); cbn; rewrite filter_app, Hall;
      rewrite filter_cons_False by (by intros H; apply H); by rewrite app_nil_r.
  - unfold Store.removeFromQueue. by destruct (Store.isCurrent _ _); cbn.
Qed.

(** On the queue that holds "a", with "b". *)
Lemma add_then_remove_restores_the_queue_witness :
  (Song.id songB ∉ Store.queueIds queueOfA)
  ∧ Store.queue (Store.removeFromQueue "b" (Store.addToQueue songB queueOfA).1).1
    = [songA].
Proof.
  assert (Hnotin : Song.id songB ∉ Store.queueIds queueOfA).
  { apply (bool_decide_unpack _). by vm_compute. }
  destruct (add_then_remove_restores_the_queue songB queueOfA Hnotin) as [H _].
  split; [exact Hnotin | exact H].
Defined.

(** X16.  Selecting a song in the control panel makes it the current
    song and sends [{song}].  If the song has segments the first becomes
    the current segment and [{segment}] is sent next; if it has none, the
    segment that was current stays current and nothing more is sent.
    Removing the selected song from the queue afterwards always clears
    song and segment and sends [{song: null, segment: null}]. *)
Theorem selecting_then_removing_a_song song state :
  let selected := Panel.handleSelectSong song state in
  let removed := Store.removeFromQueue (Song.id song) selected.1 in
  Store.currentSong selected.1 = Some song
  ∧ Store.queue selected.1 = Store.queue state
  ∧ match Song.segments song with
    | first :: _ =>
        Store.currentSegment selected.1 = Some first
        ∧ selected.2 = [Store.mkUpdate (Store.Given (Some song)) Store.Missing;
                        Store.mkUpdate Store.Missing (Store.Given (Some first))]
    | [] =>
        Store.currentSegment selected.1 = Store.currentSegment state
        ∧ selected.2 = [Store.mkUpdate (Store.Given (Some song)) Store.Missing]
    end
  ∧ Store.currentSong removed.1 = None
  ∧ Store.currentSegment removed.1 = None
  ∧ removed.2 = [Store.mkUpdate (Store.Given None) (Store.Given None)].
Proof.
  cbn zeta.
  assert (Hsel : Store.currentSong (Panel.handleSelectSong song state).1 = Some song).
  { unfold Panel.handleSelectSong. cbn. by destruct (Song.segments song). }
  split; [exact Hsel|]. split; [|split].
  - unfold Panel.handleSelectSong. cbn. by destruct (Song.segments song).
  - unfold Panel.handleSelectSong. cbn. by destruct (Song.segments song).
  - apply (removeFromQueue_is_current (Song.id song)).
    unfold Store.isCurrent. rewrite Hsel. by apply bool_decide_eq_true.
Qed.

(** ** The presentation view *)

Lemma handleUpdate_fields fields st :
  View.handleUpdate (JsObject fields) st =
  View.mkLocal
    (if View.hasKey "song" fields then View.getKey "song" fields
     else View.localSong st)
    (if View.hasKey "segment" fields then View.getKey "segment" fields
     else View.localSegment st).
Proof.
  unfold View.handleUpdate. cbn.
  destruct (View.hasKey "song" fields), (View.hasKey "segment" fields);
    by destruct st.
Qed.

Lemma handleUpdate_not_object data st :
  (∀ fields, data ≠ JsObject fields) → View.handleUpdate data st = st.
Proof.
  intros Hno. unfold View.handleUpdate.
  destruct data; try by destruct (negb _). by destruct (Hno fields).
Qed.

(** X17.  [handleUpdate] merges a message into what the view shows key
    by key: after it, the song is the message's [song] if the message is
    an object with that key and the song shown before otherwise, and the
    same for the segment; in particular [null], [undefined] and every
    value that is not an object change nothing.  Handling the same
    message twice is the same as handling it once. *)
Theorem handleUpdate_merges_by_key data st :
  View.localSong (View.handleUpdate data st)
    = match data with
      | JsObject fields =>
          if View.hasKey "song" fields then View.getKey "song" fields
          else View.localSong st
      | _ => View.localSong st
      end
  ∧ View.localSegment (View.handleUpdate data st)
    = match data with
      | JsObject fields =>
          if View.hasKey "segment" fields then View.getKey "segment" fields
          else View.localSegment st
      | _ => View.localSegment st
      end
  ∧ View.handleUpdate data (View.handleUpdate data st) = View.handleUpdate data st.
Proof.
  destruct data as [| |b|n|s|fields];
    try (rewrite !handleUpdate_not_object by done; done).
  rewrite !handleUpdate_fields. cbn.
  by destruct (View.hasKey "song" fields), (View.hasKey "segment" fields).
Qed.

Lemma handleUpdate_registry_entry m st : View.handleUpdate (metaValue m) st = st.
Proof. unfold metaValue. rewrite handleUpdate_fields. by destruct st. Qed.

Lemma onSocketEvents_app events1 events2 st :
  View.onSocketEvents (events1 ++ events2) st
  = View.onSocketEvents events2 (View.onSocketEvents events1 st).
Proof. apply foldl_app. Qed.

Lemma onSocketEvents_registry_entries w out st :
  Forall carriesRegistryEntry out →
  View.onSocketEvents (received w out) st = st.
Proof.
  intros Hall. revert st. induction Hall as [|e out He _ IH]; intros st; [done|].
  change (e :: out) with ([e] ++ out).
  rewrite received_app, onSocketEvents_app, IH.
  destruct e as [to ev arg| | |]; try done. cbn.
  destruct (decide (to = w)); [|done]. cbn.
  destruct (decide (ev = "presentationUpdate")) as [Hev|Hev].
  - rewrite bool_decide_eq_true_2 by done.
    destruct (He Hev) as [m ->]. apply handleUpdate_registry_entry.
  - by rewrite bool_decide_eq_false_2.
Qed.

Lemma relay_carries windows st :
  Forall carriesRegistryEntry (effectsOf (forEach windows relayTo st)).
Proof.
  revert st. induction windows as [|[w m] windows IH]; intros st; [constructor|].
  rewrite forEach_cons_effects. apply Forall_app. split; [|apply IH].
  destruct (socketConnected w st) eqn:Hc.
  - rewrite relayTo_healthy by done. constructor; [|constructor].
    intros _. by exists m.
  - rewrite relayTo_unhealthy by done. constructor.
Qed.

Lemma wire_carries out :
  (∀ e, e ∈ wire out → carriesRegistryEntry e) → Forall carriesRegistryEntry out.
Proof.
  intros Hw. apply Forall_forall. intros e Hin.
  destruct (isLog e) eqn:Hlog.
  - by destruct e.
  - apply Hw. by apply list_elem_of_filter.
Qed.

Lemma fromSocket_effects socketId handler st :
  effectsOf (fromSocket socketId handler st) =
  if socketConnected socketId st then effectsOf (handler st) else [].
Proof.
  unfold fromSocket. rewrite bind_effects. cbn. by destruct (socketConnected _ _).
Qed.

Lemma step_carries now e st :
  Consistent st → Forall carriesRegistryEntry (effectsOf (step now e st)).
Proof.
  intros HC.
  destruct e as [id|id|id payload cb|id payload cb|id payload cb|id reason|id| |];
    cbn [step]; rewrite ?fromSocket_effects.
  - unfold socketOpen. rewrite bind_effects. cbn.
    destruct (bool_decide _); [constructor|].
    rewrite bind_effects. cbn. rewrite onConnection_effects. cbn.
    rewrite (Consistent_mailbox st id HC). by repeat constructor.
  - destruct (socketConnected id st); [|constructor].
    rewrite onPing_effects. by repeat constructor.
  - destruct (socketConnected id st); [|constructor].
    rewrite onRegisterPresentation_effects. constructor; [done|].
    apply Forall_app. split; [destruct cb; by repeat constructor|].
    apply Forall_fmap, Forall_forall. by intros.
  - destruct (socketConnected id st); [|constructor].
    rewrite onRegisterControl_effects. destruct cb; by repeat constructor.
  - destruct (socketConnected id st); [|constructor].
    rewrite onPresentationUpdate_effects. constructor; [done|].
    apply Forall_app. split; [apply relay_carries|].
    destruct cb; by repeat constructor.
  - destruct (socketConnected id st) eqn:Hc.
    + destruct (socketClose_connected id reason st Hc) as [_ ->].
      constructor; [done|]. destruct (JsMap.has _ _); [|constructor].
      apply Forall_fmap, Forall_forall. by intros.
    + rewrite socketClose_not_connected by done. constructor.
  - destruct (socketConnected id st); [|constructor]. by repeat constructor.
  - apply wire_carries. intros e He. rewrite heartbeatCheck_effects in He.
    by apply sweep_notices_only in He as (c & -> & _).
  - apply wire_carries. intros e He. unfold staleCheck in He.
    rewrite !bind_effects in He. cbn [gets stateOf effectsOf fst snd] in He.
    rewrite !app_nil_l, wire_app in He.
    destruct (staleWindows_result now (presentationWindows st) st) as [_ H1].
    rewrite H1 in He.
    match type of He with
    | context [forEach ?l (dropStalePanel now) ?s] =>
        destruct (stalePanels_result now l s) as [_ H2]; rewrite H2 in He
    end.
    by apply elem_of_nil in He.
Qed.

Lemma run_carries trace st :
  Consistent st → Forall carriesRegistryEntry (effectsOf (run trace st)).
Proof.
  unfold run. revert st. induction trace as [|[now e] trace IH]; intros st HC.
  - constructor.
  - rewrite forEach_cons_effects. apply Forall_app. split.
    + by apply step_carries.
    + by apply IH, step_Consistent.
Qed.

(** X18.  The relay and the view together, over the socket: whatever the
    clients and the timers do from the start of the server, and whatever
    a view was showing, the [presentationUpdate] events a socket receives
    leave the view as it was.  Every such event carries a registry entry
    [{connectedAt, lastHeartbeat}], which has neither a [song] nor a
    [segment] key. *)
Theorem relayed_updates_do_not_reach_the_view trace socketId st :
  Forall carriesRegistryEntry (effectsOf (run trace initial))
  ∧ View.onSocketEvents (received socketId (effectsOf (run trace initial))) st = st.
Proof.
  pose proof (run_carries trace initial Consistent_initial) as Hall.
  split; [exact Hall|]. by apply onSocketEvents_registry_entries.
Qed.

(** X19.  The other way to the view, [window.postMessage]: a message
    that [sendToPresentationWindow] posts for [data], received from the
    page's own origin, is handled exactly as [handleUpdate data]; a
    message from any other origin changes nothing, and nothing is posted
    when the window is missing or closed. *)
Theorem posted_updates_reach_the_view origin data st :
  View.handleMessage origin origin (Window.presentationMessage data) st
    = View.handleUpdate data st
  ∧ (∀ other message, other ≠ origin →
       View.handleMessage origin other message st = st)
  ∧ Window.sendToPresentationWindow true data = [Window.presentationMessage data]
  ∧ Window.sendToPresentationWindow false data = [].
Proof.
  split; [|split; [|done]].
  - unfold View.handleMessage. rewrite bool_decide_eq_false_2 by (by intros H).
    by cbn.
  - intros other message Hne. unfold View.handleMessage.
    by rewrite bool_decide_eq_true_2.
Qed.

(** ** The window the control panel opens *)


